(** * ts-fix: the in-memory patch pipeline of [src/cli.ts]

    A shallow embedding of the patch applier ([doTextChanges],
    [doTextChangeOnString]), the overlay-aware reader ([readFile] of
    [createProject]), the option check ([checkOptions]), the fix enumerator
    ([genCodeFixesFromProject]), the output path mapping
    ([getRelativePath], [getOutputFilePath], [writeToFile]) and the driver
    ([codefixProject]), followed by the properties proved about them. *)

From Stdlib Require Import ZArith String Ascii List Lia.
From stdpp Require Import base option list sorting gmap strings.

Local Open Scope Z_scope.
Local Open Scope string_scope.
Local Open Scope list_scope.

(** ** JavaScript values used by the program *)

Module JS.

(** What a JavaScript evaluation can end in: a value or a thrown error. *)
Inductive error : Type :=
| TypeError (message : string)
| Error (message : string).

Inductive completion (A : Type) : Type :=
| Normal (value : A)
| Throw (e : error).
Global Arguments Normal {A} value.
Global Arguments Throw {A} e.

(** An integer index clamped into [0, len], as [String.prototype.substring]
    does with each of its arguments. *)
Definition clamp (len : nat) (i : Z) : nat :=
  Z.to_nat (Z.min (Z.max i 0) (Z.of_nat len)).

(** [s.substring(indexStart, indexEnd)]; [indexEnd = None] is the call with
    one argument. Both indices are clamped, and swapped when the first is
    the larger. Strings are sequences of code units, here [ascii]. *)
Definition substring (s : string) (indexStart : Z) (indexEnd : option Z) : string :=
  let len := String.length s in
  let finalStart := clamp len indexStart in
  let finalEnd := match indexEnd with
                  | None => len
                  | Some e => clamp len e
                  end in
  let from := Nat.min finalStart finalEnd in
  let to := Nat.max finalStart finalEnd in
  String.substring from (to - from) s.

End JS.

Import JS.

(** ** The TypeScript compiler's edit types ([import { TextChange } from "typescript"]) *)

Module ts.

Record TextSpan : Type := mkTextSpan { start : Z; length : Z }.

Record TextChange : Type := mkTextChange { span : TextSpan; newText : string }.

Record FileTextChanges : Type :=
  mkFileTextChanges { fileName : string; textChanges : list TextChange }.

End ts.

(** ** Patch applier *)

(** [doTextChangeOnString]: the text before [span.start], then [newText],
    then the text from [span.start + span.length] on. *)
Definition doTextChangeOnString (currentFileText : string) (change : ts.TextChange) : string :=
  let prefix := JS.substring currentFileText 0 (Some (ts.start (ts.span change))) in
  let middle := ts.newText change in
  let suffix :=
    JS.substring currentFileText
      (ts.start (ts.span change) + ts.length (ts.span change)) None in
  prefix +:+ middle +:+ suffix.

(** The loop of [doTextChanges]: [for (let i = length - 1; i >= 0; i--)].
    The counter [k] is [i + 1], so the loop stops at [k = 0]; [textChanges[i]]
    is a list lookup, and reading [.span] of [undefined] would throw. *)
Fixpoint doTextChanges_loop (textChanges : list ts.TextChange) (k : nat)
    (fileText : string) : completion string :=
  match k with
  | O => Normal fileText
  | S i =>
      match textChanges !! i with
      | Some change =>
          doTextChanges_loop textChanges i (doTextChangeOnString fileText change)
      | None => Throw (TypeError "Cannot read properties of undefined (reading 'span')")
      end
  end.

Definition doTextChanges (fileText : string) (textChanges : list ts.TextChange)
    : completion string :=
  doTextChanges_loop textChanges (List.length textChanges) fileText.

(** *** The words of the specification about the patch applier *)

Definition span_end (c : ts.TextChange) : Z :=
  ts.start (ts.span c) + ts.length (ts.span c).

(** Two spans do not overlap: one ends before the other starts. *)
Definition spansDisjoint (a b : ts.TextChange) : Prop :=
  span_end a <= ts.start (ts.span b) \/ span_end b <= ts.start (ts.span a).

(** A list of non-overlapping edits, whatever its order. *)
Definition NonOverlapping (E : list ts.TextChange) : Prop :=
  ForallOrdPairs spansDisjoint E.

(** Descending order of span start offset. *)
Definition descendingStart (a b : ts.TextChange) : Prop :=
  ts.start (ts.span b) <= ts.start (ts.span a).

Global Instance descendingStart_dec : RelDecision descendingStart.
Proof. intros a b. unfold descendingStart. apply _. Defined.

(** The algorithm as the specification words it: process the edits in
    descending order of span start offset, whatever the order of the list. *)
Definition applyEditsDescending (T : string) (E : list ts.TextChange) : string :=
  foldl doTextChangeOnString T (merge_sort descendingStart E).

(** An edit list presented in ascending order: each edit ends before the
    next one starts, and starts strictly before it. *)
Definition before (a b : ts.TextChange) : Prop :=
  span_end a <= ts.start (ts.span b) /\ ts.start (ts.span a) < ts.start (ts.span b).

Definition AscendingNonOverlapping (E : list ts.TextChange) : Prop :=
  StronglySorted before E.

Definition edit (s l : Z) (r : string) : ts.TextChange :=
  ts.mkTextChange (ts.mkTextSpan s l) r.

(** ** Node's [path] module

    The program calls [path.dirname], [path.join], [path.resolve] and
    [path.relative]; they belong to Node, not to this repository, so the
    program is written over this interface. [posix] below is the instance
    used for concrete paths. *)

Module path.

Class t : Type := {
  dirname : string -> string;
  join : list string -> string;
  resolve : list string -> string;
  relative : string -> string -> string
}.

End path.

(** ** Data of the program *)

Record ChangedFile : Type := mkChangedFile { originalText : string; newText : string }.

Record Options : Type := mkOptions {
  cwd : string;
  tsconfig : string;
  outputFolder : string;
  file : list string;
  write : bool
}.

(** The part of a TypeScript [SourceFile] the program reads. *)
Module SourceFile.
Record t : Type := mk { fileName : string; isDeclarationFile : bool; text : string }.
End SourceFile.

(** What [genCodeFixesFromProject] yields. *)
Module Yield.
Record t : Type := mk { fileName : string; textChanges : list ts.TextChange }.
End Yield.

(** [Project], as far as the program uses it. [getCombinedCodeFix rf f] is
    [languageService.getCombinedCodeFix({type: 'file', fileName: f},
    'fixMissingTypeAnnotationOnExports', {}, {...}).changes]; the language
    service reads files through the [readFile] closure it was created with,
    whose answers [rf] change as the overlay map is mutated. *)
Record Project : Type := mkProject {
  version : string;
  getSourceFiles : list SourceFile.t;
  getSourceFile : string -> option SourceFile.t;
  getCombinedCodeFix : (string -> option string) -> string -> list ts.FileTextChanges
}.

(** A call of a [Host] method. *)
Inductive HostCall : Type :=
| writeFile (fileName content : string)
| log (s : string)
| mkdir (directoryPath : string)
| exists_ (fileName : string).

(** A [Host]: its newline, and what [exists] answers after the calls made so
    far. Host methods are taken to return normally. *)
Record Host : Type := mkHost {
  getNewLine : string;
  existsAnswer : list HostCall -> string -> bool
}.

(** The mutable state of a run: the map [allChangedFiles], shared with the
    [readFile] closure of [createProject], and the host calls made so far,
    oldest first. *)
Record World : Type := mkWorld {
  allChangedFiles : gmap string ChangedFile;
  hostCalls : list HostCall
}.

(** Stateful code that may throw; the state survives a throw. *)
Definition M (A : Type) : Type := World -> completion A * World.

Definition ret {A} (a : A) : M A := fun w => (Normal a, w).

Definition bind {A B} (m : M A) (k : A -> M B) : M B :=
  fun w => match m w with
           | (Normal a, w') => k a w'
           | (Throw e, w') => (Throw e, w')
           end.

Definition throw {A} (e : error) : M A := fun w => (Throw e, w).

Definition lift {A} (c : completion A) : M A := fun w => (c, w).

Notation "x <- m ;; k" := (bind m (fun x => k))
  (at level 100, m at next level, right associativity).
Notation "m ;;; k" := (bind m (fun _ => k))
  (at level 100, right associativity).

Definition call (c : HostCall) : M unit :=
  fun w => (Normal tt, mkWorld (allChangedFiles w) (hostCalls w ++ [c])).

Definition getOverlay : M (gmap string ChangedFile) :=
  fun w => (Normal (allChangedFiles w), w).

Definition setOverlay (m : gmap string ChangedFile) : M unit :=
  fun w => (Normal tt, mkWorld m (hostCalls w)).

Definition isWriteFile (c : HostCall) : bool :=
  match c with
  | writeFile _ _ => true
  | _ => false
  end.

(** A computation that adds host calls to the ones already made, none of
    them [writeFile]. *)
Definition writesNothing {A} (m : M A) : Prop :=
  forall w, exists calls,
    hostCalls (m w).2 = hostCalls w ++ calls
    /\ Forall (fun c => isWriteFile c = false) calls.

(** [for (x of l) body(x)] over an array. *)
Fixpoint forEach {A} (body : A -> M unit) (l : list A) : M unit :=
  match l with
  | [] => ret tt
  | x :: rest => body x ;;; forEach body rest
  end.

(** [/[\\/]node_modules[\\/]/.test(s)] *)
Definition isSeparator (c : ascii) : bool :=
  (Ascii.eqb c "\" || Ascii.eqb c "/")%bool.

Definition node_modules_here (s : string) : bool :=
  match s with
  | String c rest =>
      (isSeparator c && String.prefix "node_modules" rest &&
       match String.get 12 rest with
       | Some c' => isSeparator c'
       | None => false
       end)%bool
  | EmptyString => false
  end.

Fixpoint node_modules_test (s : string) : bool :=
  match s with
  | EmptyString => false
  | String _ rest => (node_modules_here s || node_modules_test rest)%bool
  end.

(** The specification's wording of the same test: the path has a segment
    named node_modules, with a separator of either style on both sides. *)
Definition underNodeModules (s : string) : Prop :=
  exists pre sep1 sep2 post,
    isSeparator sep1 = true /\ isSeparator sep2 = true /\
    s = pre +:+ String sep1 ("node_modules" +:+ String sep2 post).

Section Program.

Context {node_path : path.t}.

(** [fs.existsSync], as [checkOptions] calls it before anything is written. *)
Variable fs_existsSync : string -> bool.

(** [ts.sys.readFile]: [None] is [undefined], the file cannot be read. *)
Variable sys_readFile : string -> option string.

(** The TypeScript calls of [createProject]: parsing the configuration
    ([None]: no command line), creating the language service and its
    program ([None]: no program); an unrecoverable configuration
    diagnostic throws. They read files through the given [readFile]. *)
Variable loadProject : (string -> option string) -> string -> completion (option Project).

Variable host : Host.

(** *** Overlay-aware reader: [readFile] inside [createProject] *)
Definition readFile (changedFiles : gmap string ChangedFile) (path : string)
    : option string :=
  if decide (changedFiles !! path <> None)
  then newText <$> changedFiles !! path
  else sys_readFile path.

Definition createProject (tsConfigFilePath : string) : M (option Project) :=
  fun w =>
    (loadProject (readFile (allChangedFiles w)) (path.resolve [tsConfigFilePath]), w).

(** *** [checkOptions] *)

(** The paths [checkOptions] tests: each requested file joined to the
    directory of the configuration file. *)
Definition requestedPaths (opt : Options) : list string :=
  map (fun file => path.join [path.dirname (tsconfig opt); file]) (file opt).

(** The body of [opt.file.forEach]: one push on one of the two arrays. *)
Definition checkOptions_visit (opt : Options) (acc : list string * list string)
    (file : string) : list string * list string :=
  let file := path.join [path.dirname (tsconfig opt); file] in
  if fs_existsSync file
  then (acc.1 ++ [file], acc.2)
  else (acc.1, acc.2 ++ [file]).

Definition checkOptions (opt : Options) : completion (list string * list string) :=
  if negb (List.length (file opt) =? 0)%nat then
    let '(validFiles, invalidFiles) :=
      foldl (checkOptions_visit opt) ([], []) (file opt) in
    if (List.length validFiles =? 0)%nat
    then Throw (Error "All provided files are invalid")
    else Normal (validFiles, invalidFiles)
  else Normal ([], []).

(** *** Output path mapping and writing *)

Definition getDirectory (filePath : string) : string := path.dirname filePath.

Definition getRelativePath (filePath : string) (opt : Options) : string :=
  path.relative (getDirectory (tsconfig opt)) (path.resolve [filePath]).

Definition getOutputFilePath (filePath : string) (opt : Options) : string :=
  let fileName := getRelativePath filePath opt in
  path.resolve [outputFolder opt; fileName].

Definition host_exists (fileName : string) : M bool :=
  fun w => (Normal (existsAnswer host (hostCalls w) fileName),
            mkWorld (allChangedFiles w) (hostCalls w ++ [exists_ fileName])).

Definition writeToFile (fileName fileContents : string) (opt : Options) : M string :=
  let writeToFileName := getOutputFilePath fileName opt in
  let writeToDirectory := getDirectory writeToFileName in
  present <- host_exists writeToDirectory ;;
  (if negb present then call (mkdir writeToDirectory) else ret tt) ;;;
  call (writeFile writeToFileName fileContents) ;;;
  call (log ("Updated " +:+ path.relative (cwd opt) writeToFileName)) ;;;
  ret writeToFileName.

(** *** Fix enumerator *)

(** One turn of the [for] loop of [genCodeFixesFromProject]: [None] is
    [continue], [Some y] is [yield y]. *)
Definition genCodeFixes_visit (project : Project) (files : option (gset string))
    (file : SourceFile.t) : M (option Yield.t) :=
  if node_modules_test (SourceFile.fileName file) then ret None
  else if SourceFile.isDeclarationFile file then ret None
  else if match files with
          | Some files => negb (bool_decide (SourceFile.fileName file ∈ files))
          | None => false
          end then ret None
  else
    call (log ("Getting codefixes for " +:+ SourceFile.fileName file)) ;;;
    changedFiles <- getOverlay ;;
    let changes :=
      getCombinedCodeFix project (readFile changedFiles) (SourceFile.fileName file) in
    match changes with
    | [] => ret None
    | first :: _ =>
        (if (1 <? List.length changes)%nat
         then call (log ("Multiple fixes found for " +:+ SourceFile.fileName file))
         else ret tt) ;;;
        ret (Some (Yield.mk (SourceFile.fileName file) (ts.textChanges first)))
    end.

(** [for (const y of genCodeFixesFromProject(project, host, files)) body(y)]:
    the generator runs up to its next [yield], the loop body runs on the
    yielded value, and the generator resumes. A throw in the body ends the
    loop. *)
Fixpoint genCodeFixesFromProject (project : Project) (files : option (gset string))
    (sourceFiles : list SourceFile.t) (body : Yield.t -> M unit) : M unit :=
  match sourceFiles with
  | [] => ret tt
  | file :: rest =>
      y <- genCodeFixes_visit project files file ;;
      match y with
      | Some y => body y
      | None => ret tt
      end ;;;
      genCodeFixesFromProject project files rest body
  end.

(** The sequence of values the generator yields in that loop, started in
    world [w]. *)
Fixpoint yielded (project : Project) (files : option (gset string))
    (sourceFiles : list SourceFile.t) (body : Yield.t -> M unit) (w : World)
    : list Yield.t :=
  match sourceFiles with
  | [] => []
  | file :: rest =>
      match genCodeFixes_visit project files file w with
      | (Normal (Some y), w1) =>
          y :: match body y w1 with
               | (Normal _, w2) => yielded project files rest body w2
               | (Throw _, _) => []
               end
      | (Normal None, w1) => yielded project files rest body w1
      | (Throw _, _) => []
      end
  end.

(** *** [codefixProject] *)

(** The body of the [for] loop of [codefixProject]. *)
Definition applyFixes (opt : Options) (project : Project) (y : Yield.t) : M unit :=
  let fileName := Yield.fileName y in
  call (log ("Applying fixes to file: " +:+ fileName)) ;;;
  match getSourceFile project fileName with
  | None => throw (Error ("File " +:+ fileName +:+ " not found in project"))
  | Some sourceFile =>
      changedFile <- lift (doTextChanges (SourceFile.text sourceFile) (Yield.textChanges y)) ;;
      changedFiles <- getOverlay ;;
      setOverlay (<[fileName := mkChangedFile (SourceFile.text sourceFile) changedFile]>
                    changedFiles) ;;;
      if write opt
      then writeToFile fileName changedFile opt ;;; ret tt
      else ret tt
  end.

(** The report on the invalid paths, at the start of [codefixProject]. *)
Definition reportInvalidFiles (invalidFiles : list string) : M unit :=
  if negb (List.length invalidFiles =? 0)%nat
  then call (log (getNewLine host +:+ "The following file paths are invalid:")) ;;;
       forEach (fun file => call (log file)) invalidFiles
  else ret tt.

(** [codefixProject] from [const allChangedFiles = new Map()] on. *)
Definition fixProject (opt : Options) (validFiles : list string) : M string :=
  setOverlay ∅ ;;;
  project <- createProject (tsconfig opt) ;;
  match project with
  | None => ret "Error: Could not create project."
  | Some project =>
      call (log ("Using TypeScript " +:+ version project)) ;;;
      genCodeFixesFromProject project
        (if (0 <? List.length (file opt))%nat
         then Some (list_to_set validFiles)
         else None)
        (getSourceFiles project) (applyFixes opt project) ;;;
      ret "Done"
  end.

Definition codefixProject (opt : Options) : M string :=
  checked <- lift (checkOptions opt) ;;
  let '(validFiles, invalidFiles) := checked in
  reportInvalidFiles invalidFiles ;;;
  fixProject opt validFiles.

End Program.

(** ** Node's [path] for POSIX paths *)

(** Modelled from the spec: Node's [path] module ([dirname], [join],
    [resolve], [relative]) is not part of the repository. The specification
    only says that the output location is the file's path relative to the
    configuration directory, resolved against the output directory, and that
    requested paths are taken relative to the configuration directory; the
    definitions of this module follow the POSIX flavour of Node's [path] on
    strings separated by slashes. [cwd] is [process.cwd()], an absolute
    path. *)
Module posix.

Definition isSlash (c : ascii) : bool := Ascii.eqb c "/".

Definition startsWithSlash (s : string) : bool :=
  match s with
  | String c _ => isSlash c
  | EmptyString => false
  end.

(** [s.split('/')] *)
Fixpoint split (s : string) : list string :=
  match s with
  | EmptyString => [EmptyString]
  | String c rest =>
      if isSlash c then EmptyString :: split rest
      else match split rest with
           | seg :: segs => String c seg :: segs
           | [] => [String c EmptyString]
           end
  end.

(** One segment met by [normalizeString]; [res] holds the segments kept so
    far, the last one first. *)
Definition normalize_visit (allowAboveRoot : bool) (res : list string) (seg : string)
    : list string :=
  if (String.eqb seg "" || String.eqb seg ".")%bool then res
  else if String.eqb seg ".." then
    match res with
    | last :: res' =>
        if String.eqb last ".."
        then (if allowAboveRoot then seg :: res else res)
        else res'
    | [] => if allowAboveRoot then [seg] else []
    end
  else seg :: res.

Definition normalizeString (path : string) (allowAboveRoot : bool) : string :=
  String.concat "/" (rev (foldl (normalize_visit allowAboveRoot) [] (split path))).

(** The loop of [resolve], over the arguments from the last to the first
    and then [cwd], until an absolute path is met. *)
Fixpoint resolve_loop (paths : list string) (resolvedPath : string) : string * bool :=
  match paths with
  | [] => (resolvedPath, false)
  | p :: rest =>
      if String.eqb p "" then resolve_loop rest resolvedPath
      else if startsWithSlash p then (p +:+ "/" +:+ resolvedPath, true)
      else resolve_loop rest (p +:+ "/" +:+ resolvedPath)
  end.

Definition resolve (cwd : string) (args : list string) : string :=
  let '(resolvedPath, resolvedAbsolute) := resolve_loop (rev args ++ [cwd]) "" in
  let resolvedPath := normalizeString resolvedPath (negb resolvedAbsolute) in
  if resolvedAbsolute then "/" +:+ resolvedPath
  else if String.eqb resolvedPath "" then "." else resolvedPath.

(** The segments of a resolved path. *)
Definition segments (p : string) : list string :=
  filter (fun seg => seg <> "") (split p).

(** [relative] on the segments of the two resolved paths: drop the common
    leading segments, climb out of what is left of [from], descend into
    what is left of [to]. *)
Fixpoint relative_segments (from to : list string) : list string :=
  match from, to with
  | f :: from', t :: to' =>
      if String.eqb f t then relative_segments from' to'
      else repeat ".." (List.length from) ++ to
  | _, _ => repeat ".." (List.length from) ++ to
  end.

Definition relative (cwd from to : string) : string :=
  if String.eqb from to then ""
  else
    let from := resolve cwd [from] in
    let to := resolve cwd [to] in
    if String.eqb from to then ""
    else String.concat "/" (relative_segments (segments from) (segments to)).

Fixpoint skip (p : ascii -> bool) (l : list ascii) : list ascii :=
  match l with
  | c :: rest => if p c then skip p rest else l
  | [] => []
  end.

(** [dirname] scans the path from its end down to index 1: over the
    trailing slashes, over the last component, up to the slash before it
    (index [end]); the answer is [path.slice(0, end)]. *)
Definition dirname (path : string) : string :=
  match path with
  | EmptyString => "."
  | String c0 rest =>
      let hasRoot := isSlash c0 in
      let scanned := skip (fun c => negb (isSlash c))
                       (skip isSlash (rev (list_ascii_of_string rest))) in
      match scanned with
      | [] => if hasRoot then "/" else "."
      | _ :: before_end =>
          if (hasRoot && (List.length before_end =? 0)%nat)%bool then "//"
          else String c0 (string_of_list_ascii (rev before_end))
      end
  end.

Definition endsWithSlash (s : string) : bool :=
  match rev (list_ascii_of_string s) with
  | c :: _ => isSlash c
  | [] => false
  end.

Definition normalize (path : string) : string :=
  if String.eqb path "" then "."
  else
    let isAbsolute := startsWithSlash path in
    let trailingSeparator := endsWithSlash path in
    let path := normalizeString path (negb isAbsolute) in
    if String.eqb path "" then
      (if isAbsolute then "/" else if trailingSeparator then "./" else ".")
    else
      let path := if trailingSeparator then path +:+ "/" else path in
      if isAbsolute then "/" +:+ path else path.

Definition join (args : list string) : string :=
  match filter (fun arg => arg <> "") args with
  | [] => "."
  | nonempty => normalize (String.concat "/" nonempty)
  end.

(** Modelled from the spec: the [path] of a Node process on a POSIX system
    whose working directory is [cwd]. *)
Definition node_path (cwd : string) : path.t :=
  {| path.dirname := dirname;
     path.join := join;
     path.resolve := resolve cwd;
     path.relative := relative cwd |}.

(** An absolute path written from its segments. *)
Definition absolute (segs : list string) : string := "/" +:+ String.concat "/" segs.

(** A segment that is a plain name: not empty, no slash, neither [.] nor [..]. *)
Definition plainName (seg : string) : bool :=
  (negb (String.eqb seg "") && negb (String.eqb seg ".") && negb (String.eqb seg "..")
   && forallb (fun c => negb (isSlash c)) (list_ascii_of_string seg))%bool.

(** A path all of whose segments are empty or plain names. *)
Definition tame (p : string) : Prop :=
  Forall (fun seg => seg = "" \/ plainName seg = true) (split p).

End posix.

(** ** A small project, for running the program *)

Module Sample.

Definition a_ts : SourceFile.t := SourceFile.mk "/proj/src/a.ts" false "abcdefgh".
Definition dep_ts : SourceFile.t :=
  SourceFile.mk "/proj/node_modules/dep/index.ts" false "export const x = 1".
Definition lib_d_ts : SourceFile.t := SourceFile.mk "/proj/src/lib.d.ts" true "declare const y: number".
Definition b_ts : SourceFile.t := SourceFile.mk "/proj/src/b.ts" false "let b".
Definition c_ts : SourceFile.t := SourceFile.mk "/proj/src/c.ts" false "let c".

Definition sourceFiles : list SourceFile.t := [a_ts; dep_ts; lib_d_ts; b_ts; c_ts].

(** A fix provider with one combined change for [a.ts] (and for the two
    files the enumerator skips), none for [b.ts], two for [c.ts]. *)
Definition changesFor (readFile : string -> option string) (fileName : string)
    : list ts.FileTextChanges :=
  if String.eqb fileName "/proj/src/b.ts" then []
  else if String.eqb fileName "/proj/src/c.ts" then
    [ts.mkFileTextChanges fileName [edit 5 0 ": string"];
     ts.mkFileTextChanges fileName [edit 5 0 ": number"]]
  else [ts.mkFileTextChanges fileName [edit 0 1 "Z"; edit 5 0 "-"]].

Definition project : Project :=
  mkProject "5.4.5" sourceFiles
    (fun fileName =>
       List.find (fun f => String.eqb (SourceFile.fileName f) fileName) sourceFiles)
    changesFor.

Definition host : Host := mkHost (String "013" (String "010" "")) (fun _ _ => false).

Definition opt : Options :=
  mkOptions "/proj" "/proj/tsconfig.json" "/proj/out" [] false.

Definition world0 : World := mkWorld ∅ [].

(** Only [/proj/a.ts] is on disk. *)
Definition onlyA (p : string) : bool := String.eqb p "/proj/a.ts".

End Sample.

(** ** Further words for the properties of the program *)

(** The edits of [E] lie one after the other in the text [T], from offset
    [p] on: each starts at or after the end of the one before, none has a
    negative length, and the last one ends within the text. *)
Fixpoint placedFrom (T : string) (p : Z) (E : list ts.TextChange) : bool :=
  match E with
  | [] => Z.leb p (Z.of_nat (String.length T))
  | c :: E' =>
      (Z.leb p (ts.start (ts.span c)) && Z.leb 0 (ts.length (ts.span c))
       && placedFrom T (span_end c) E')%bool
  end.

(** The text [T] from offset [p] on with every span of [E] replaced, all
    offsets being offsets of [T] itself. *)
Fixpoint splice (T : string) (p : Z) (E : list ts.TextChange) : string :=
  match E with
  | [] => JS.substring T p None
  | c :: E' =>
      JS.substring T p (Some (ts.start (ts.span c)))
      +:+ ts.newText c +:+ splice T (span_end c) E'
  end.

Definition isLog (c : HostCall) : bool :=
  match c with
  | log _ => true
  | _ => false
  end.

(** A computation that adds host calls to the ones already made, all of
    them of the [allowed] kind. *)
Definition callsOnly {A} (allowed : HostCall -> bool) (m : M A) : Prop :=
  forall w, exists calls,
    hostCalls (m w).2 = hostCalls w ++ calls
    /\ Forall (fun c => allowed c = true) calls.

Section Observations.

Context {node_path : path.t}.

(** The [writeFile] call that the loop body of [codefixProject] makes for a
    yielded value when [opt.write] is set; none when the program has no
    source file of that name. *)
Definition writeOf (opt : Options) (project : Project) (y : Yield.t) : list HostCall :=
  match getSourceFile project (Yield.fileName y) with
  | Some sourceFile =>
      match doTextChanges (SourceFile.text sourceFile) (Yield.textChanges y) with
      | Normal changedFile =>
          [writeFile (getOutputFilePath (Yield.fileName y) opt) changedFile]
      | Throw _ => []
      end
  | None => []
  end.

End Observations.

(** ** [isTypeScriptVersionSupported] *)

(** A number that [parseInt] returns: an integer, or [NaN] ([None]).
    A comparison with [NaN] is false. *)
Definition lessThan (a b : option Z) : bool :=
  match a, b with
  | Some x, Some y => Z.ltb x y
  | _, _ => false
  end.

Definition atLeast (a b : option Z) : bool :=
  match a, b with
  | Some x, Some y => Z.leb y x
  | _, _ => false
  end.

Definition isTypeScriptVersionSupported (major minor : option Z) : bool :=
  if lessThan major (Some 3) then false
  else if lessThan major (Some 4) then atLeast minor (Some 5)
  else true.

(** ** [makeOptions] *)

(** What [yargs(args)...argv] holds of the four options after parsing:
    [outputFolder] is [None] when the option is absent. *)
Record Argv : Type := mkArgv {
  argv_file : list string;
  argv_outputFolder : option string;
  argv_tsconfig : string;
  argv_write : bool
}.

Section MakeOptions.

Context {node_path : path.t}.

(** The [yargs] chain of [makeOptions], given the [coerce] function of the
    [tsconfig] option and the arguments. *)
Variable yargs : (string -> string) -> list string -> Argv.

Definition makeOptions (cwd : string) (args : list string) : Options :=
  let argv := yargs (fun arg => path.resolve [cwd; arg]) args in
  let file := argv_file argv in
  let outputFolder := argv_outputFolder argv in
  let tsconfig := argv_tsconfig argv in
  let write := argv_write argv in
  mkOptions cwd tsconfig
    (match outputFolder with
     | Some folder =>
         if String.eqb folder "" then path.dirname tsconfig
         else path.resolve [cwd; folder]
     | None => path.dirname tsconfig
     end)
    file write.

End MakeOptions.

(** ** Sample command lines *)

Module SampleArgs.

(** [ts-fix -t tsconfig.json] *)
Definition plain (coerce : string -> string) (args : list string) : Argv :=
  mkArgv [] None (coerce "tsconfig.json") false.

(** [ts-fix -t tsconfig.json -o out -w] *)
Definition withOutputFolder (coerce : string -> string) (args : list string) : Argv :=
  mkArgv [] (Some "out") (coerce "tsconfig.json") true.

Definition writing : Options :=
  mkOptions "/proj" "/proj/tsconfig.json" "/proj/out" [] true.

End SampleArgs.

(** ** Theorems *)

Lemma doTextChanges_loop_take (E : list ts.TextChange) (k : nat) (T : string) :
  (k <= List.length E)%nat ->
  doTextChanges_loop E k T = Normal (foldl doTextChangeOnString T (reverse (take k E))).
Proof.
  revert T. induction k as [|i IH]; intros T Hk.
  - reflexivity.
  - simpl. destruct (lookup_lt_is_Some_2 E i) as [c Hc]; [lia|].
    rewrite Hc, IH by lia.
    rewrite (take_S_r E i c Hc), reverse_snoc. reflexivity.
Qed.

Lemma doTextChanges_foldl (T : string) (E : list ts.TextChange) :
  doTextChanges T E = Normal (foldl doTextChangeOnString T (reverse E)).
Proof.
  unfold doTextChanges. rewrite doTextChanges_loop_take by lia.
  by rewrite firstn_all.
Qed.

Example doTextChanges_try :
  doTextChanges "abcdefgh" [edit 0 1 "Z"; edit 5 0 "-"] = Normal "Zbcde-fgh".
Proof. reflexivity. Qed.

(** *** Patch applier *)

Global Instance descendingStart_trans : Transitive descendingStart.
Proof. unfold descendingStart. intros a b c ? ?. lia. Qed.

Global Instance descendingStart_total : Total descendingStart.
Proof. unfold descendingStart. intros a b. lia. Qed.

Lemma ascending_start_inj (E : list ts.TextChange) (a b : ts.TextChange) :
  AscendingNonOverlapping E -> a ∈ E -> b ∈ E ->
  ts.start (ts.span a) = ts.start (ts.span b) -> a = b.
Proof.
  unfold AscendingNonOverlapping. induction 1 as [|x l Hl IH Hx]; intros Ha Hb Hs.
  - inversion Ha.
  - rewrite Forall_forall in Hx. unfold before in Hx.
    apply elem_of_cons in Ha as [->|Ha]; apply elem_of_cons in Hb as [->|Hb]; auto.
    + pose proof (Hx _ Hb). lia.
    + pose proof (Hx _ Ha). lia.
Qed.

Lemma ascending_rev_descending (E : list ts.TextChange) :
  AscendingNonOverlapping E -> StronglySorted descendingStart (reverse E).
Proof.
  unfold AscendingNonOverlapping. induction 1 as [|x l Hl IH Hx].
  - constructor.
  - rewrite reverse_cons. apply StronglySorted_app; repeat split; auto.
    + intros a b Ha Hb. apply list_elem_of_singleton in Hb as ->.
      rewrite Forall_forall in Hx. rewrite elem_of_reverse in Ha.
      pose proof (Hx _ Ha). unfold before, descendingStart in *. lia.
    + repeat constructor.
Qed.

Lemma descending_sort_of_permutation (E E' : list ts.TextChange) :
  AscendingNonOverlapping E -> E' ≡ₚ E ->
  merge_sort descendingStart E' = reverse E.
Proof.
  intros Hasc Hperm.
  apply (StronglySorted_unique_strong descendingStart).
  - intros a b Ha Hb Hab Hba.
    apply (ascending_start_inj E); auto.
    + rewrite merge_sort_Permutation, Hperm in Ha. exact Ha.
    + rewrite elem_of_reverse in Hb. exact Hb.
    + unfold descendingStart in *. lia.
  - apply StronglySorted_merge_sort; apply _.
  - apply ascending_rev_descending, Hasc.
  - rewrite merge_sort_Permutation, Hperm. symmetry. apply reverse_Permutation.
Qed.

(** C1, as the claim states it, fails: [doTextChanges] walks the list from
    its last element to its first and never sorts, so two presentations of
    the same non-overlapping edits give different texts. *)
Lemma doTextChanges_depends_on_order :
  ~ (forall (T : string) (E E' : list ts.TextChange),
        NonOverlapping E -> E ≡ₚ E' -> doTextChanges T E = doTextChanges T E').
Proof.
  intros H.
  specialize (H "abcdefgh" [edit 0 1 "ZZ"; edit 5 0 "-"] [edit 5 0 "-"; edit 0 1 "ZZ"]).
  assert (Hno : NonOverlapping [edit 0 1 "ZZ"; edit 5 0 "-"]).
  { unfold NonOverlapping. repeat constructor.
    unfold spansDisjoint, span_end; simpl; lia. }
  specialize (H Hno (Permutation_swap _ _ _)).
  vm_compute in H. discriminate H.
Qed.

(** Edits that start at the same offset do not overlap, and both orders of
    two insertions at one offset are ascending, yet the two orders give
    different texts: an order-independent result needs distinct starts. *)
Lemma doTextChanges_equal_starts_depend_on_order :
  NonOverlapping [edit 5 0 "a"; edit 5 0 "b"]
  /\ doTextChanges "abcdefgh" [edit 5 0 "a"; edit 5 0 "b"] = Normal "abcdeabfgh"
  /\ doTextChanges "abcdefgh" [edit 5 0 "b"; edit 5 0 "a"] = Normal "abcdebafgh".
Proof.
  split; [|split; reflexivity].
  unfold NonOverlapping. repeat constructor.
  unfold spansDisjoint, span_end; simpl; lia.
Qed.

(** C1 (amended): for a text [T] and edits [E] presented in strictly
    ascending order of span start, each edit ending at or before the start
    of the next (so the spans do not overlap and no two edits start at the
    same offset), [doTextChanges] returns what processing the edits in
    descending order of span start gives, and that is the same for every
    permutation [E'] of [E] handed to the descending-order algorithm. *)
Theorem doTextChanges_ascending_is_descending_application
    (T : string) (E E' : list ts.TextChange) :
  AscendingNonOverlapping E -> E' ≡ₚ E ->
  doTextChanges T E = Normal (applyEditsDescending T E').
Proof.
  intros Hasc Hperm. unfold applyEditsDescending.
  rewrite doTextChanges_foldl.
  by rewrite (descending_sort_of_permutation E E').
Qed.

Lemma doTextChanges_ascending_is_descending_application_witness :
  doTextChanges "abcdefgh" [edit 0 1 "ZZ"; edit 5 0 "-"]
  = Normal (applyEditsDescending "abcdefgh" [edit 5 0 "-"; edit 0 1 "ZZ"]).
Proof.
  apply doTextChanges_ascending_is_descending_application.
  - unfold AscendingNonOverlapping. repeat constructor; unfold span_end; simpl; lia.
  - apply Permutation_swap.
Defined.

(** C4, as the claim states it, fails: the edit replaces the three
    characters from offset 5 on, so "fgh" does not survive. *)
Lemma single_edit_not_abcdeXYZfgh :
  doTextChanges "abcdefgh" [edit 5 3 "XYZ"] <> Normal "abcdeXYZfgh".
Proof. vm_compute. discriminate. Qed.

(** C4 (amended): applying the single edit {start:5, length:3,
    replacement:"XYZ"} to "abcdefgh" gives "abcdeXYZ". *)
Theorem single_edit_example :
  doTextChanges "abcdefgh" [edit 5 3 "XYZ"] = Normal "abcdeXYZ"
  /\ doTextChangeOnString "abcdefgh" (edit 5 3 "XYZ") = "abcdeXYZ".
Proof. split; reflexivity. Qed.

(** C5, as the claim states it, fails: the first edit replaces the "a", which
    is therefore not in the result. *)
Lemma two_edits_not_Zabcde_fgh :
  doTextChanges "abcdefgh" [edit 0 1 "Z"; edit 5 0 "-"] <> Normal "Zabcde-fgh".
Proof. vm_compute. discriminate. Qed.

(** C5 (amended): the two edits {start:0,length:1,replacement:"Z"} and
    {start:5,length:0,replacement:"-"} applied to "abcdefgh" give
    "Zbcde-fgh", for either ordering of the two edits in the list. *)
Theorem two_edits_example :
  doTextChanges "abcdefgh" [edit 0 1 "Z"; edit 5 0 "-"] = Normal "Zbcde-fgh"
  /\ doTextChanges "abcdefgh" [edit 5 0 "-"; edit 0 1 "Z"] = Normal "Zbcde-fgh".
Proof. split; reflexivity. Qed.

(** The indices [substring] works with are within the string, whatever the
    arguments. *)
Lemma clamp_le (len : nat) (i : Z) : (JS.clamp len i <= len)%nat.
Proof. unfold JS.clamp. lia. Qed.

Lemma doTextChangeOnString_clamped (T : string) (c : ts.TextChange) :
  let len := String.length T in
  let from := JS.clamp len (ts.start (ts.span c)) in
  let to := JS.clamp len (span_end c) in
  doTextChangeOnString T c
  = String.substring 0 from T +:+ ts.newText c +:+ String.substring to (len - to) T.
Proof.
  unfold doTextChangeOnString, JS.substring, span_end; simpl.
  pose proof (clamp_le (String.length T) (ts.start (ts.span c) + ts.length (ts.span c))).
  replace (JS.clamp (String.length T) 0) with 0%nat by (unfold JS.clamp; lia).
  rewrite Nat.min_0_l, Nat.max_0_l, Nat.sub_0_r.
  rewrite Nat.min_l, Nat.max_r by lia. reflexivity.
Qed.

(** C10: [doTextChanges] returns a string for every text and every edit
    list, whatever the spans (negative, beyond the text, overlapping): the
    loop only reads indices of the list, and each step is the text up to the
    clamped start, the replacement, and the text from the clamped end on. *)
Theorem doTextChanges_total (T : string) (E : list ts.TextChange) :
  exists s : string,
    doTextChanges T E = Normal s
    /\ s = foldl doTextChangeOnString T (reverse E)
    /\ forall (T' : string) (c : ts.TextChange),
         doTextChangeOnString T' c
         = String.substring 0 (JS.clamp (String.length T') (ts.start (ts.span c))) T'
           +:+ ts.newText c
           +:+ String.substring (JS.clamp (String.length T') (span_end c))
                 (String.length T' - JS.clamp (String.length T') (span_end c)) T'.
Proof.
  exists (foldl doTextChangeOnString T (reverse E)). split; [|split].
  - apply doTextChanges_foldl.
  - reflexivity.
  - intros T' c. apply doTextChangeOnString_clamped.
Qed.

(** *** The program over any [path], file system, project loader and host *)

Ltac run_M :=
  unfold bind, ret, call, lift, throw, getOverlay, setOverlay, host_exists in *;
  simpl in *.

Section ProgramFacts.

Context {node_path : path.t}.
Variable fs_existsSync : string -> bool.
Variable sys_readFile : string -> option string.
Variable loadProject : (string -> option string) -> string -> completion (option Project).
Variable host : Host.

Lemma readFile_overlay (changedFiles : gmap string ChangedFile) (P : string) cf :
  changedFiles !! P = Some cf ->
  readFile sys_readFile changedFiles P = Some (newText cf).
Proof.
  intros H. unfold readFile. rewrite H. by case_decide.
Qed.

Lemma readFile_disk (changedFiles : gmap string ChangedFile) (P : string) :
  changedFiles !! P = None ->
  readFile sys_readFile changedFiles P = sys_readFile P.
Proof.
  intros H. unfold readFile. rewrite H. by case_decide.
Qed.

Lemma forEach_log (l : list string) (w : World) :
  forEach (fun file => call (log file)) l w
  = (Normal tt, mkWorld (allChangedFiles w) (hostCalls w ++ map log l)).
Proof.
  revert w. induction l as [|x l IH]; intros w; simpl.
  - unfold ret. rewrite app_nil_r. by destruct w.
  - run_M. rewrite IH. simpl. by rewrite <- app_assoc.
Qed.

(** The generator's own code leaves the overlay alone and never throws. *)
Lemma genCodeFixes_visit_overlay project files file w :
  exists y w', genCodeFixes_visit sys_readFile project files file w = (Normal y, w')
               /\ allChangedFiles w' = allChangedFiles w.
Proof.
  unfold genCodeFixes_visit.
  destruct (node_modules_test _); [by eexists _, _|].
  destruct (SourceFile.isDeclarationFile _); [by eexists _, _|].
  destruct (match files with Some _ => _ | None => _ end); [by eexists _, _|].
  run_M. destruct (getCombinedCodeFix _ _ _) as [|first others]; [by eexists _, _|].
  destruct (1 <? _)%nat; by eexists _, _.
Qed.

Lemma genCodeFixes_visit_fileName project files file w y w' :
  genCodeFixes_visit sys_readFile project files file w = (Normal (Some y), w') ->
  Yield.fileName y = SourceFile.fileName file.
Proof.
  unfold genCodeFixes_visit.
  destruct (node_modules_test _); [discriminate|].
  destruct (SourceFile.isDeclarationFile _); [discriminate|].
  destruct (match files with Some _ => _ | None => _ end); [discriminate|].
  run_M. destruct (getCombinedCodeFix _ _ _) as [|first others]; [discriminate|].
  destruct (1 <? _)%nat; intros [= <- _]; reflexivity.
Qed.

Lemma writeToFile_overlay fileName fileContents opt w :
  exists name w', writeToFile host fileName fileContents opt w = (Normal name, w')
                  /\ allChangedFiles w' = allChangedFiles w.
Proof.
  unfold writeToFile. run_M. destruct (negb _); by eexists _, _.
Qed.

Lemma applyFixes_overlay_other opt project y w (P : string) :
  Yield.fileName y <> P ->
  allChangedFiles (applyFixes host opt project y w).2 !! P = allChangedFiles w !! P.
Proof.
  intros Hne. unfold applyFixes. run_M.
  destruct (getSourceFile project _) as [sf|]; [|done].
  destruct (doTextChanges _ _) as [new|e]; [|done]. simpl.
  destruct (write opt).
  - run_M.
    destruct (writeToFile_overlay (Yield.fileName y) new opt
                (mkWorld (<[Yield.fileName y := mkChangedFile (SourceFile.text sf) new]>
                            (allChangedFiles w))
                         (hostCalls w ++ [log ("Applying fixes to file: " +:+ Yield.fileName y)])))
      as (name & w' & -> & Hw'). simpl. rewrite Hw'. simpl.
    by rewrite lookup_insert_ne.
  - simpl. by rewrite lookup_insert_ne.
Qed.

Lemma applyFixes_records opt project y w w' :
  applyFixes host opt project y w = (Normal tt, w') ->
  exists sf new,
    getSourceFile project (Yield.fileName y) = Some sf
    /\ doTextChanges (SourceFile.text sf) (Yield.textChanges y) = Normal new
    /\ allChangedFiles w' !! Yield.fileName y = Some (mkChangedFile (SourceFile.text sf) new).
Proof.
  unfold applyFixes. run_M.
  destruct (getSourceFile project _) as [sf|]; [|discriminate].
  destruct (doTextChanges _ _) as [new|e] eqn:Hnew; [|discriminate]. simpl.
  intros H. exists sf, new. split; [done|]. split; [done|].
  destruct (write opt).
  - run_M.
    destruct (writeToFile_overlay (Yield.fileName y) new opt
                (mkWorld (<[Yield.fileName y := mkChangedFile (SourceFile.text sf) new]>
                            (allChangedFiles w))
                         (hostCalls w ++ [log ("Applying fixes to file: " +:+ Yield.fileName y)])))
      as (name & w1 & Hw & Hw1). rewrite Hw in H. injection H as <-.
    rewrite Hw1. simpl. by rewrite lookup_insert_eq.
  - injection H as <-. simpl. by rewrite lookup_insert_eq.
Qed.

Lemma genCodeFixesFromProject_overlay_other opt project files l w (P : string) :
  (forall f, f ∈ l -> SourceFile.fileName f <> P) ->
  allChangedFiles
    (genCodeFixesFromProject sys_readFile project files l (applyFixes host opt project) w).2
    !! P
  = allChangedFiles w !! P.
Proof.
  revert w. induction l as [|file rest IH]; intros w Hl; [done|].
  simpl. unfold bind at 1 2.
  destruct (genCodeFixes_visit_overlay project files file w) as (y & w1 & Hv & Hw1).
  rewrite Hv. destruct y as [y|].
  - pose proof (applyFixes_overlay_other opt project y w1 P) as Hy.
    destruct (applyFixes host opt project y w1) as [[[]|e] w2]; simpl in *.
    + rewrite IH, Hy, Hw1; [done| |].
      * rewrite (genCodeFixes_visit_fileName _ _ _ _ _ _ Hv). apply Hl. by left.
      * intros f Hf. apply Hl. by right.
    + rewrite Hy, Hw1; [done|].
      rewrite (genCodeFixes_visit_fileName _ _ _ _ _ _ Hv). apply Hl. by left.
  - unfold ret. rewrite IH, Hw1; [done|]. intros f Hf. apply Hl. by right.
Qed.

Lemma applyFixes_overlay_keeps opt project y w (P : string) :
  is_Some (allChangedFiles w !! P) ->
  is_Some (allChangedFiles (applyFixes host opt project y w).2 !! P).
Proof.
  intros Hin. destruct (decide (Yield.fileName y = P)) as [<-|Hne];
    [|by rewrite applyFixes_overlay_other].
  destruct (applyFixes host opt project y w) as [[[]|e] w'] eqn:Hrun.
  - simpl. destruct (applyFixes_records _ _ _ _ _ Hrun) as (sf & new & _ & _ & ->). eauto.
  - simpl. revert Hrun. unfold applyFixes. run_M.
    destruct (getSourceFile project _) as [sf|]; [|by intros [= _ <-]].
    destruct (doTextChanges _ _) as [new|e']; [|by intros [= _ <-]]. simpl.
    destruct (write opt); [|discriminate]. run_M.
    destruct (writeToFile_overlay (Yield.fileName y) new opt
                (mkWorld (<[Yield.fileName y := mkChangedFile (SourceFile.text sf) new]>
                            (allChangedFiles w))
                         (hostCalls w ++ [log ("Applying fixes to file: " +:+ Yield.fileName y)])))
      as (name & w1 & -> & Hw1). discriminate.
Qed.

Lemma genCodeFixesFromProject_overlay_keeps opt project files l w (P : string) :
  is_Some (allChangedFiles w !! P) ->
  is_Some (allChangedFiles
             (genCodeFixesFromProject sys_readFile project files l
                (applyFixes host opt project) w).2 !! P).
Proof.
  revert w. induction l as [|file rest IH]; intros w Hin; [done|].
  simpl. unfold bind at 1 2.
  destruct (genCodeFixes_visit_overlay project files file w) as (y & w1 & Hv & Hw1).
  rewrite Hv. rewrite <- Hw1 in Hin. destruct y as [y|].
  - pose proof (applyFixes_overlay_keeps opt project y w1 P Hin) as Hy.
    destruct (applyFixes host opt project y w1) as [[[]|e] w2]; simpl in *; auto.
  - unfold ret. by apply IH.
Qed.

(** C2: [readFile] answers with the overlay entry's [newText] when the
    path is a key of the overlay map and with [ts.sys.readFile] otherwise;
    so once the loop of [codefixProject] has recorded the new text of a
    file, a read of that file returns the new text, then and after any of
    the files visited later in the run; and whatever is visited later, the
    read is answered from the overlay, not from the disk. *)
Theorem overlay_read_through (changedFiles : gmap string ChangedFile) (P : string) :
  (forall cf, changedFiles !! P = Some cf ->
              readFile sys_readFile changedFiles P = Some (newText cf))
  /\ (changedFiles !! P = None ->
      readFile sys_readFile changedFiles P = sys_readFile P)
  /\ (forall opt project files y w w1 later r w2,
        Yield.fileName y = P ->
        applyFixes host opt project y w = (Normal tt, w1) ->
        (forall f, f ∈ later -> SourceFile.fileName f <> P) ->
        genCodeFixesFromProject sys_readFile project files later
          (applyFixes host opt project) w1 = (r, w2) ->
        exists sf new,
          getSourceFile project P = Some sf
          /\ doTextChanges (SourceFile.text sf) (Yield.textChanges y) = Normal new
          /\ readFile sys_readFile (allChangedFiles w1) P = Some new
          /\ readFile sys_readFile (allChangedFiles w2) P = Some new)
  /\ (forall opt project files y w w1 later r w2,
        Yield.fileName y = P ->
        applyFixes host opt project y w = (Normal tt, w1) ->
        genCodeFixesFromProject sys_readFile project files later
          (applyFixes host opt project) w1 = (r, w2) ->
        exists cf,
          allChangedFiles w2 !! P = Some cf
          /\ readFile sys_readFile (allChangedFiles w2) P = Some (newText cf)).
Proof.
  split; [|split; [|split]].
  - intros cf. apply readFile_overlay.
  - apply readFile_disk.
  - intros opt project files y w w1 later r w2 <- Hy Hlater Hrun.
    destruct (applyFixes_records _ _ _ _ _ Hy) as (sf & new & Hsf & Hnew & Hw1).
    exists sf, new. repeat split; [done|done| |].
    + by rewrite (readFile_overlay _ _ _ Hw1).
    + pose proof (genCodeFixesFromProject_overlay_other opt project files later w1
                    (Yield.fileName y) Hlater) as Hkeep.
      rewrite Hrun in Hkeep. simpl in Hkeep. rewrite Hw1 in Hkeep.
      by rewrite (readFile_overlay _ _ _ Hkeep).
  - intros opt project files y w w1 later r w2 <- Hy Hrun.
    destruct (applyFixes_records _ _ _ _ _ Hy) as (sf & new & _ & _ & Hw1).
    pose proof (genCodeFixesFromProject_overlay_keeps opt project files later w1
                  (Yield.fileName y) (mk_is_Some _ _ Hw1)) as [cf Hcf].
    rewrite Hrun in Hcf. simpl in Hcf. exists cf. split; [done|].
    by apply readFile_overlay.
Qed.


(** **** [checkOptions] *)

Lemma checkOptions_fold opt (l valid invalid : list string) :
  foldl (checkOptions_visit fs_existsSync opt) (valid, invalid) l
  = (valid ++ List.filter fs_existsSync
                (map (fun file => path.join [path.dirname (tsconfig opt); file]) l),
     invalid ++ List.filter (fun p => negb (fs_existsSync p))
                  (map (fun file => path.join [path.dirname (tsconfig opt); file]) l)).
Proof.
  revert valid invalid. induction l as [|f l IH]; intros valid invalid; simpl.
  - by rewrite !app_nil_r.
  - unfold checkOptions_visit at 2. simpl.
    destruct (fs_existsSync _); simpl; rewrite IH, <- app_assoc; reflexivity.
Qed.

Lemma filter_nil_iff {A} (f : A -> bool) (l : list A) :
  List.filter f l = [] <-> Forall (fun x => f x = false) l.
Proof.
  induction l as [|x l IH]; simpl.
  - split; auto.
  - destruct (f x) eqn:Hx; split.
    + discriminate.
    + intros H. apply Forall_cons in H as [H _]. congruence.
    + intros H. constructor; [done|]. by apply IH.
    + intros H. apply Forall_cons in H as [_ H]. by apply IH.
Qed.

Lemma checkOptions_eq opt :
  checkOptions fs_existsSync opt
  = match file opt with
    | [] => Normal ([], [])
    | _ :: _ =>
        match List.filter fs_existsSync (requestedPaths opt) with
        | [] => Throw (Error "All provided files are invalid")
        | _ :: _ =>
            Normal (List.filter fs_existsSync (requestedPaths opt),
                    List.filter (fun p => negb (fs_existsSync p)) (requestedPaths opt))
        end
    end.
Proof.
  unfold checkOptions, requestedPaths.
  destruct (file opt) as [|f l] eqn:Hfile; [done|].
  cbn [List.length Nat.eqb negb]. rewrite checkOptions_fold, !app_nil_l.
  set (paths := map _ (f :: l)).
  destruct (List.filter fs_existsSync paths); reflexivity.
Qed.

Lemma reportInvalidFiles_run invalid w :
  reportInvalidFiles host invalid w
  = (Normal tt,
     mkWorld (allChangedFiles w)
       (hostCalls w ++
        match invalid with
        | [] => []
        | _ :: _ =>
            log (getNewLine host +:+ "The following file paths are invalid:")
            :: map log invalid
        end)).
Proof.
  unfold reportInvalidFiles. destruct invalid as [|p invalid].
  - simpl. unfold ret. rewrite app_nil_r. by destruct w.
  - cbn [List.length Nat.eqb negb]. unfold bind at 1. unfold call at 1.
    rewrite forEach_log. cbn [allChangedFiles hostCalls].
    by rewrite <- app_assoc.
Qed.

(** C3: [checkOptions] joins each requested path to the directory of the
    configuration file and tests it with [fs.existsSync]. It throws exactly
    when the requested list is not empty and every joined path fails the
    test, and then [codefixProject] throws the same error with no host call
    made and nothing computed. Otherwise it returns the paths that pass and
    the paths that fail, in the requested order, and [codefixProject] logs
    the failing ones and goes on with the passing ones. *)
Theorem checkOptions_fatal_iff_all_invalid (opt : Options) :
  ((exists e, checkOptions fs_existsSync opt = Throw e)
   <-> file opt <> []
       /\ Forall (fun p => fs_existsSync p = false) (requestedPaths opt))
  /\ (forall e, checkOptions fs_existsSync opt = Throw e ->
        e = Error "All provided files are invalid"
        /\ forall w,
             codefixProject fs_existsSync sys_readFile loadProject host opt w
             = (Throw e, w))
  /\ (forall valid invalid,
        checkOptions fs_existsSync opt = Normal (valid, invalid) ->
        valid = List.filter fs_existsSync (requestedPaths opt)
        /\ invalid = List.filter (fun p => negb (fs_existsSync p)) (requestedPaths opt)
        /\ forall w,
             codefixProject fs_existsSync sys_readFile loadProject host opt w
             = fixProject sys_readFile loadProject host opt valid
                 (mkWorld (allChangedFiles w)
                    (hostCalls w ++
                     match invalid with
                     | [] => []
                     | _ :: _ =>
                         log (getNewLine host +:+ "The following file paths are invalid:")
                         :: map log invalid
                     end))).
Proof.
  pose proof (checkOptions_eq opt) as Heq.
  pose proof (filter_nil_iff fs_existsSync (requestedPaths opt)) as Hnil.
  split; [|split].
  - split.
    + intros [e He]. rewrite He in Heq.
      destruct (file opt) as [|f l]; [discriminate|]. split; [done|].
      apply Hnil. by destruct (List.filter fs_existsSync _).
    + intros [Hne Hall]. apply Hnil in Hall. rewrite Hall in Heq.
      destruct (file opt) as [|f l]; [done|]. eauto.
  - intros e He. split.
    + rewrite He in Heq. destruct (file opt); [discriminate|].
      destruct (List.filter fs_existsSync _); congruence.
    + intros w. unfold codefixProject. unfold bind at 1. unfold lift.
      by rewrite He.
  - intros valid invalid Hok.
    assert (valid = List.filter fs_existsSync (requestedPaths opt)
            /\ invalid = List.filter (fun p => negb (fs_existsSync p)) (requestedPaths opt))
      as [Hv Hi].
    { rewrite Hok in Heq. unfold requestedPaths in *.
      destruct (file opt) as [|f l].
      - simpl. by injection Heq as -> ->.
      - destruct (List.filter fs_existsSync _); [discriminate|]. by injection Heq. }
    split; [done|]. split; [done|].
    intros w. unfold codefixProject. unfold bind at 1. unfold lift.
    rewrite Hok. unfold bind at 1. by rewrite reportInvalidFiles_run.
Qed.

(** **** The test for [node_modules] *)

Lemma prefix_app (p t : string) : String.prefix p (p +:+ t) = true.
Proof.
  induction p as [|c p IH]; simpl; [by destruct t|].
  destruct (ascii_dec c c); [done|congruence].
Qed.

Lemma prefix_inv (p s : string) :
  String.prefix p s = true -> exists t, s = p +:+ t.
Proof.
  revert s. induction p as [|c p IH]; intros s; simpl.
  - intros _. by exists s.
  - destruct s as [|c' s]; [discriminate|]. simpl.
    destruct (ascii_dec c c') as [->|]; [|discriminate].
    intros H. destruct (IH _ H) as [t ->]. by exists t.
Qed.

Lemma node_modules_here_spec (s : string) :
  node_modules_here s = true
  <-> exists sep1 sep2 post,
        isSeparator sep1 = true /\ isSeparator sep2 = true /\
        s = String sep1 ("node_modules" +:+ String sep2 post).
Proof.
  split.
  - destruct s as [|c rest]; [discriminate|]. simpl.
    intros H. apply andb_true_iff in H as [H Hget].
    apply andb_true_iff in H as [Hc Hpre].
    apply prefix_inv in Hpre as [t ->].
    destruct t as [|c' post]; [discriminate|].
    exists c, c', post. by repeat split.
  - intros (sep1 & sep2 & post & H1 & H2 & ->).
    unfold node_modules_here. rewrite H1, prefix_app. simpl. exact H2.
Qed.

Lemma node_modules_test_spec (s : string) :
  node_modules_test s = true <-> underNodeModules s.
Proof.
  unfold underNodeModules. split.
  - induction s as [|c rest IH]; [discriminate|].
    cbn [node_modules_test]. intros H. apply orb_true_iff in H as [H|H].
    + apply node_modules_here_spec in H as (sep1 & sep2 & post & H1 & H2 & H).
      exists "", sep1, sep2, post. by repeat split.
    + destruct (IH H) as (pre & sep1 & sep2 & post & H1 & H2 & ->).
      exists (String c pre), sep1, sep2, post. by repeat split.
  - intros (pre & sep1 & sep2 & post & H1 & H2 & ->).
    induction pre as [|c pre IH].
    + cbn [String.append node_modules_test]. apply orb_true_iff. left.
      apply node_modules_here_spec. by exists sep1, sep2, post.
    + change (String c pre +:+ ?x) with (String c (pre +:+ x)).
      cbn [node_modules_test]. apply orb_true_iff. by right.
Qed.

(** **** Fix enumerator *)

Lemma genCodeFixesFromProject_app project files l1 l2 body w :
  genCodeFixesFromProject sys_readFile project files (l1 ++ l2) body w
  = (genCodeFixesFromProject sys_readFile project files l1 body ;;;
     genCodeFixesFromProject sys_readFile project files l2 body) w.
Proof.
  revert w. induction l1 as [|file l1 IH]; intros w; simpl; [done|].
  unfold bind.
  destruct (genCodeFixes_visit _ _ _ _ _) as [[y|e] w1]; [|done].
  destruct (match y with Some y0 => body y0 | None => _ end w1) as [[[]|e] w2]; [|done].
  rewrite IH. reflexivity.
Qed.

Lemma skipped_visit project files file w :
  node_modules_test (SourceFile.fileName file) = true
  \/ SourceFile.isDeclarationFile file = true ->
  genCodeFixes_visit sys_readFile project files file w = (Normal None, w).
Proof.
  unfold genCodeFixes_visit. intros [-> | ->]; [done|].
  by destruct (node_modules_test _).
Qed.

(** C6: a source file whose name has a segment named node_modules (with a
    separator of either style on both sides), or that is a declaration file,
    is passed over by [genCodeFixesFromProject] whatever the file subset and
    whatever fixes the provider has for it: its turn of the loop yields
    nothing, logs nothing, and the loop over a file list runs and yields
    exactly as over the list without that file. *)
Theorem skipped_files_never_yielded (project : Project) (files : option (gset string))
    (file : SourceFile.t) :
  underNodeModules (SourceFile.fileName file)
  \/ SourceFile.isDeclarationFile file = true ->
  (forall w, genCodeFixes_visit sys_readFile project files file w = (Normal None, w))
  /\ (forall l1 l2 body w,
        genCodeFixesFromProject sys_readFile project files (l1 ++ file :: l2) body w
        = genCodeFixesFromProject sys_readFile project files (l1 ++ l2) body w
        /\ yielded sys_readFile project files (l1 ++ file :: l2) body w
           = yielded sys_readFile project files (l1 ++ l2) body w).
Proof.
  intros Hskip.
  assert (Hvisit : forall w,
             genCodeFixes_visit sys_readFile project files file w = (Normal None, w)).
  { intros w. apply skipped_visit.
    destruct Hskip as [H|H]; [left; by apply node_modules_test_spec | by right]. }
  split; [exact Hvisit|].
  intros l1 l2 body w. split.
  - assert (Hstep : forall w1,
               genCodeFixesFromProject sys_readFile project files (file :: l2) body w1
               = genCodeFixesFromProject sys_readFile project files l2 body w1).
    { intros w1. cbn [genCodeFixesFromProject]. unfold bind, ret.
      by rewrite Hvisit. }
    rewrite !genCodeFixesFromProject_app. unfold bind.
    destruct (genCodeFixesFromProject _ _ _ l1 _ _) as [[[]|e] w1]; [apply Hstep|done].
  - revert w. induction l1 as [|f l1 IH]; intros w.
    + cbn [app yielded]. by rewrite Hvisit.
    + cbn [app yielded].
      destruct (genCodeFixes_visit _ _ _ f w) as [[[y|]|e] w1]; [| |done].
      * f_equal. destruct (body y w1) as [[[]|e] w2]; [|done]. apply IH.
      * apply IH.
Qed.

(** C7: for a file that passes the three filters, when the provider has no
    combined change the turn of the loop yields nothing and does not throw,
    so the file is missing from the yielded sequence; when it has more than
    one, the turn logs "Multiple fixes found for ..." and yields the text
    changes of the first, again without throwing. *)
Theorem zero_or_many_candidates (project : Project) (files : option (gset string))
    (file : SourceFile.t) (w : World) :
  node_modules_test (SourceFile.fileName file) = false ->
  SourceFile.isDeclarationFile file = false ->
  (forall subset, files = Some subset -> SourceFile.fileName file ∈ subset) ->
  let name := SourceFile.fileName file in
  let changes := getCombinedCodeFix project (readFile sys_readFile (allChangedFiles w)) name in
  let asked := hostCalls w ++ [log ("Getting codefixes for " +:+ name)] in
  (changes = [] ->
     genCodeFixes_visit sys_readFile project files file w
     = (Normal None, mkWorld (allChangedFiles w) asked)
     /\ forall rest body,
          yielded sys_readFile project files (file :: rest) body w
          = yielded sys_readFile project files rest body (mkWorld (allChangedFiles w) asked))
  /\ (forall first second others,
        changes = first :: second :: others ->
        genCodeFixes_visit sys_readFile project files file w
        = (Normal (Some (Yield.mk name (ts.textChanges first))),
           mkWorld (allChangedFiles w)
             (asked ++ [log ("Multiple fixes found for " +:+ name)]))
        /\ forall rest body,
             yielded sys_readFile project files (file :: rest) body w
             = Yield.mk name (ts.textChanges first)
               :: match body (Yield.mk name (ts.textChanges first))
                          (mkWorld (allChangedFiles w)
                             (asked ++ [log ("Multiple fixes found for " +:+ name)])) with
                  | (Normal _, w2) => yielded sys_readFile project files rest body w2
                  | (Throw _, _) => []
                  end).
Proof.
  intros Hnm Hdecl Hsub name changes asked.
  assert (Hin : match files with
                | Some subset => negb (bool_decide (SourceFile.fileName file ∈ subset))
                | None => false
                end = false).
  { destruct files as [subset|]; [|done].
    rewrite bool_decide_eq_true_2; [done|]. by apply Hsub. }
  split.
  - intros Hnone.
    assert (Hvisit : genCodeFixes_visit sys_readFile project files file w
                     = (Normal None, mkWorld (allChangedFiles w) asked)).
    { unfold genCodeFixes_visit. rewrite Hnm, Hdecl, Hin. run_M.
      fold name. fold changes. by rewrite Hnone. }
    split; [exact Hvisit|]. intros rest body. cbn [yielded]. by rewrite Hvisit.
  - intros first second others Hmany.
    assert (Hvisit : genCodeFixes_visit sys_readFile project files file w
                     = (Normal (Some (Yield.mk name (ts.textChanges first))),
                        mkWorld (allChangedFiles w)
                          (asked ++ [log ("Multiple fixes found for " +:+ name)]))).
    { unfold genCodeFixes_visit. rewrite Hnm, Hdecl, Hin. run_M.
      fold name. fold changes. by rewrite Hmany. }
    split; [exact Hvisit|]. intros rest body. cbn [yielded]. by rewrite Hvisit.
Qed.

(** **** Host calls of a run *)

Lemma writesNothing_ret {A} (a : A) : writesNothing (ret a).
Proof. intros w. exists []. by rewrite app_nil_r. Qed.

Lemma writesNothing_throw {A} (e : error) : writesNothing (@throw A e).
Proof. intros w. exists []. by rewrite app_nil_r. Qed.

Lemma writesNothing_lift {A} (c : completion A) : writesNothing (lift c).
Proof. intros w. exists []. by rewrite app_nil_r. Qed.

Lemma writesNothing_getOverlay : writesNothing getOverlay.
Proof. intros w. exists []. by rewrite app_nil_r. Qed.

Lemma writesNothing_setOverlay m : writesNothing (setOverlay m).
Proof. intros w. exists []. by rewrite app_nil_r. Qed.

Lemma writesNothing_call (c : HostCall) : isWriteFile c = false -> writesNothing (call c).
Proof. intros Hc w. exists [c]. split; [done|]. by repeat constructor. Qed.

Lemma writesNothing_bind {A B} (m : M A) (k : A -> M B) :
  writesNothing m -> (forall a, writesNothing (k a)) -> writesNothing (bind m k).
Proof.
  intros Hm Hk w. unfold bind.
  destruct (Hm w) as (calls1 & H1 & Hno1).
  destruct (m w) as [[a|e] w1]; simpl in H1.
  - destruct (Hk a w1) as (calls2 & H2 & Hno2).
    exists (calls1 ++ calls2). rewrite H2, H1, app_assoc. split; [done|].
    by apply Forall_app.
  - by exists calls1.
Qed.

Create HintDb quiet.
#[local] Hint Resolve writesNothing_ret writesNothing_throw writesNothing_lift
  writesNothing_getOverlay writesNothing_setOverlay writesNothing_call : quiet.

Ltac quiet :=
  repeat first
    [ apply writesNothing_bind; [|intros ?]
    | solve [auto with quiet] ].

Lemma writesNothing_forEach {A} (body : A -> M unit) (l : list A) :
  (forall x, writesNothing (body x)) -> writesNothing (forEach body l).
Proof.
  intros Hbody. induction l as [|x l IH]; simpl; quiet.
Qed.

Lemma writesNothing_visit project files file :
  writesNothing (genCodeFixes_visit sys_readFile project files file).
Proof.
  unfold genCodeFixes_visit.
  destruct (node_modules_test _); [quiet|].
  destruct (SourceFile.isDeclarationFile _); [quiet|].
  destruct (match files with Some _ => _ | None => _ end); [quiet|].
  quiet. destruct (getCombinedCodeFix _ _ _); [quiet|].
  destruct (1 <? _)%nat; quiet.
Qed.

Lemma writesNothing_genCodeFixesFromProject project files l body :
  (forall y, writesNothing (body y)) ->
  writesNothing (genCodeFixesFromProject sys_readFile project files l body).
Proof.
  intros Hbody. induction l as [|file rest IH]; simpl; [quiet|].
  apply writesNothing_bind; [apply writesNothing_visit|].
  intros y. apply writesNothing_bind; [|intros ?; exact IH].
  destruct y as [y|]; [apply Hbody|quiet].
Qed.

Lemma writesNothing_applyFixes opt project y :
  write opt = false -> writesNothing (applyFixes host opt project y).
Proof.
  intros Hdry. unfold applyFixes. rewrite Hdry.
  apply writesNothing_bind; [quiet|]. intros _.
  destruct (getSourceFile project _); quiet.
Qed.

Lemma writesNothing_createProject tsConfigFilePath :
  writesNothing (createProject sys_readFile loadProject tsConfigFilePath).
Proof. intros w. exists []. by rewrite app_nil_r. Qed.

Lemma writesNothing_reportInvalidFiles invalid :
  writesNothing (reportInvalidFiles host invalid).
Proof.
  unfold reportInvalidFiles. destruct (negb _); [|quiet].
  apply writesNothing_bind; [quiet|]. intros _.
  apply writesNothing_forEach. intros x. quiet.
Qed.

(** C9: in a run with [opt.write] false no [writeFile] call reaches the
    host, whatever the project and however many files are fixed and however
    the run ends; the new texts are only set in the overlay map. *)
Theorem dry_run_never_writes (opt : Options) (w : World) :
  write opt = false ->
  exists calls,
    hostCalls (codefixProject fs_existsSync sys_readFile loadProject host opt w).2
    = hostCalls w ++ calls
    /\ Forall (fun c => isWriteFile c = false) calls.
Proof.
  intros Hdry. revert w. change (writesNothing
    (codefixProject fs_existsSync sys_readFile loadProject host opt)).
  unfold codefixProject. apply writesNothing_bind; [quiet|].
  intros [valid invalid].
  apply writesNothing_bind; [apply writesNothing_reportInvalidFiles|]. intros _.
  unfold fixProject. apply writesNothing_bind; [quiet|]. intros _.
  apply writesNothing_bind; [apply writesNothing_createProject|].
  intros [project|]; [|quiet].
  apply writesNothing_bind; [quiet|]. intros _.
  apply writesNothing_bind; [|intros _; quiet].
  apply writesNothing_genCodeFixesFromProject. intros y.
  by apply writesNothing_applyFixes.
Qed.

End ProgramFacts.

(** *** Paths *)

Section PosixFacts.

Import posix.

Lemma chars_app (a b : string) :
  list_ascii_of_string (a +:+ b) = list_ascii_of_string a ++ list_ascii_of_string b.
Proof. induction a as [|c a IH]; simpl; [done|]. by rewrite IH. Qed.

Lemma split_nonempty (s : string) : exists seg segs, split s = seg :: segs.
Proof.
  induction s as [|c s (seg & segs & IH)]; simpl; [by eexists _, _|].
  destruct (isSlash c); [by eexists _, _|]. rewrite IH. by eexists _, _.
Qed.

Lemma split_app_slash (s1 s2 : string) :
  split (s1 +:+ String "/" s2) = split s1 ++ split s2.
Proof.
  induction s1 as [|c s1 IH]; simpl; [done|].
  destruct (isSlash c); [by rewrite IH|].
  rewrite IH. destruct (split_nonempty s1) as (seg & segs & ->). done.
Qed.

Lemma plainName_spec (seg : string) :
  plainName seg = true ->
  seg <> "" /\ seg <> "." /\ seg <> ".."
  /\ Forall (fun c => isSlash c = false) (list_ascii_of_string seg).
Proof.
  unfold plainName. rewrite !andb_true_iff, !negb_true_iff, !String.eqb_neq.
  intros [[[? ?] ?] Hall]. repeat split; try done.
  apply Forall_forall. intros c Hc. rewrite forallb_forall in Hall.
  apply negb_true_iff, Hall. by apply list_elem_of_In.
Qed.

Lemma split_no_slash (s : string) :
  Forall (fun c => isSlash c = false) (list_ascii_of_string s) -> split s = [s].
Proof.
  induction s as [|c s IH]; simpl; [done|].
  intros H. apply Forall_cons in H as [-> H]. by rewrite IH.
Qed.

Lemma split_plainName (seg : string) : plainName seg = true -> split seg = [seg].
Proof. intros H. apply split_no_slash, plainName_spec, H. Qed.

Lemma concat_cons_cons (sep x y : string) (l : list string) :
  String.concat sep (x :: y :: l) = x +:+ sep +:+ String.concat sep (y :: l).
Proof. reflexivity. Qed.

(** Splitting a path written from plain names gives the names back. *)
Lemma split_concat (segs : list string) :
  Forall (fun seg => plainName seg = true) segs -> segs <> [] ->
  split (String.concat "/" segs) = segs.
Proof.
  induction segs as [|x [|y l] IH]; intros Hall Hne; [done| |].
  - simpl. apply split_plainName. by apply Forall_cons in Hall as [? _].
  - rewrite concat_cons_cons. apply Forall_cons in Hall as [Hx Hall].
    change ("/" +:+ ?t) with (String "/" t).
    rewrite split_app_slash, IH, split_plainName; done.
Qed.

Lemma segments_app_slash (s1 s2 : string) :
  segments (s1 +:+ String "/" s2) = segments s1 ++ segments s2.
Proof. unfold segments. by rewrite split_app_slash, filter_app. Qed.

Lemma segments_concat (segs : list string) :
  Forall (fun seg => plainName seg = true) segs ->
  segments (String.concat "/" segs) = segs.
Proof.
  intros Hall. destruct segs as [|x l]; [done|].
  unfold segments. rewrite split_concat by done.
  induction Hall as [|seg segs Hseg Hall IH]; [done|].
  rewrite filter_cons_True, IH; [done|]. by apply plainName_spec in Hseg as [? _].
Qed.

Lemma segments_absolute (segs : list string) :
  Forall (fun seg => plainName seg = true) segs -> segments (absolute segs) = segs.
Proof.
  intros Hall. unfold absolute. change ("/" +:+ ?t) with ("" +:+ String "/" t).
  by rewrite segments_app_slash, segments_concat.
Qed.

Lemma tame_empty : tame "".
Proof. unfold tame. simpl. constructor; auto. Qed.

Lemma tame_app_slash (s1 s2 : string) :
  tame s1 -> tame s2 -> tame (s1 +:+ String "/" s2).
Proof. unfold tame. rewrite split_app_slash. apply Forall_app_2. Qed.

Lemma tame_concat (segs : list string) :
  Forall (fun seg => plainName seg = true) segs -> tame (String.concat "/" segs).
Proof.
  intros Hall. destruct segs as [|x l]; [apply tame_empty|].
  unfold tame. rewrite split_concat by done.
  eapply Forall_impl; [exact Hall|]. auto.
Qed.

Lemma tame_absolute (segs : list string) :
  Forall (fun seg => plainName seg = true) segs -> tame (absolute segs).
Proof.
  intros Hall. unfold absolute. change ("/" +:+ ?t) with ("" +:+ String "/" t).
  apply tame_app_slash; [apply tame_empty | by apply tame_concat].
Qed.

Lemma normalize_visit_plainName allow res seg :
  plainName seg = true -> normalize_visit allow res seg = seg :: res.
Proof.
  intros H. apply plainName_spec in H as (H1 & H2 & H3 & _).
  unfold normalize_visit.
  apply String.eqb_neq in H1, H2, H3. by rewrite H1, H2, H3.
Qed.

Lemma normalize_fold allow (l res : list string) :
  Forall (fun seg => seg = "" \/ plainName seg = true) l ->
  foldl (normalize_visit allow) res l = rev (filter (fun seg => seg <> "") l) ++ res.
Proof.
  intros Hall. revert res. induction Hall as [|seg l Hseg Hall IH]; intros res; [done|].
  simpl. destruct Hseg as [-> | Hseg].
  - rewrite filter_cons_False by auto. by rewrite IH.
  - rewrite normalize_visit_plainName, IH by done.
    rewrite filter_cons_True by (by apply plainName_spec in Hseg as [? _]).
    simpl. by rewrite <- app_assoc.
Qed.

Lemma normalizeString_tame (p : string) allow :
  tame p -> normalizeString p allow = String.concat "/" (segments p).
Proof.
  intros Htame. unfold normalizeString.
  rewrite normalize_fold, app_nil_r, rev_involutive by done. reflexivity.
Qed.

Lemma concat_plain_nonempty (x : string) (l : list string) :
  plainName x = true ->
  String.eqb (String.concat "/" (x :: l)) "" = false
  /\ startsWithSlash (String.concat "/" (x :: l)) = false.
Proof.
  intros Hx. apply plainName_spec in Hx as (Hne & _ & _ & Hall).
  destruct x as [|c x]; [done|]. apply Forall_cons in Hall as [Hc _].
  destruct l; simpl; by rewrite ?Hc.
Qed.

Lemma resolve_loop_absolute (segs : list string) (rest : list string) (acc : string) :
  resolve_loop (absolute segs :: rest) acc = (absolute segs +:+ String "/" acc, true).
Proof. reflexivity. Qed.

Lemma resolve_loop_empty (rest : list string) (acc : string) :
  resolve_loop ("" :: rest) acc = resolve_loop rest acc.
Proof. reflexivity. Qed.

Lemma resolve_loop_relative (p : string) (rest : list string) (acc : string) :
  String.eqb p "" = false -> startsWithSlash p = false ->
  resolve_loop (p :: rest) acc = resolve_loop rest (p +:+ String "/" acc).
Proof. intros H1 H2. simpl. by rewrite H1, H2. Qed.

Lemma resolve_from_absolute (o : list string) (acc : string) :
  Forall (fun seg => plainName seg = true) o -> tame acc ->
  "/" +:+ normalizeString (absolute o +:+ String "/" acc) (negb true)
  = "/" +:+ String.concat "/" (o ++ segments acc).
Proof.
  intros Ho Hacc.
  rewrite normalizeString_tame by (apply tame_app_slash; [by apply tame_absolute | done]).
  by rewrite segments_app_slash, segments_absolute.
Qed.

(** Resolving an absolute path of plain names gives the path itself. *)
Lemma resolve_absolute (cwd : string) (segs : list string) :
  Forall (fun seg => plainName seg = true) segs ->
  resolve cwd [absolute segs] = absolute segs.
Proof.
  intros Hall. unfold resolve. cbn [rev app].
  rewrite resolve_loop_absolute. cbv iota beta.
  rewrite resolve_from_absolute by (done || apply tame_empty).
  by rewrite app_nil_r.
Qed.

(** Resolving a relative path of plain names against an absolute one. *)
Lemma resolve_against (cwd : string) (o r : list string) :
  Forall (fun seg => plainName seg = true) o ->
  Forall (fun seg => plainName seg = true) r ->
  resolve cwd [absolute o; String.concat "/" r] = absolute (o ++ r).
Proof.
  intros Ho Hr. unfold resolve. cbn [rev app].
  destruct r as [|x l].
  - change (String.concat "/" []) with "".
    rewrite resolve_loop_empty, resolve_loop_absolute. cbv iota beta.
    rewrite resolve_from_absolute by (done || apply tame_empty).
    by rewrite !app_nil_r.
  - pose proof Hr as Hx. apply Forall_cons in Hx as [Hx _].
    destruct (concat_plain_nonempty x l Hx) as [Hne Hrel].
    rewrite resolve_loop_relative, resolve_loop_absolute by done. cbv iota beta.
    rewrite resolve_from_absolute.
    + by rewrite segments_app_slash, segments_concat, app_nil_r.
    + done.
    + apply tame_app_slash; [by apply tame_concat | apply tame_empty].
Qed.

Lemma relative_segments_under (d r : list string) :
  relative_segments d (d ++ r) = r.
Proof.
  induction d as [|f d IH]; simpl; [by destruct r|].
  by rewrite String.eqb_refl.
Qed.

(** The path of a file under a directory, relative to that directory. *)
Lemma relative_under (cwd : string) (d r : list string) :
  Forall (fun seg => plainName seg = true) d ->
  Forall (fun seg => plainName seg = true) r ->
  relative cwd (absolute d) (absolute (d ++ r)) = String.concat "/" r.
Proof.
  intros Hd Hr.
  assert (Hdr : Forall (fun seg => plainName seg = true) (d ++ r)) by by apply Forall_app.
  unfold relative. rewrite !resolve_absolute by done.
  destruct (String.eqb_spec (absolute d) (absolute (d ++ r))) as [Heq|Hne].
  - apply (f_equal segments) in Heq. rewrite !segments_absolute in Heq by done.
    rewrite <- (app_nil_r d) in Heq at 1. apply app_inv_head in Heq. by subst r.
  - by rewrite !segments_absolute, relative_segments_under.
Qed.

Lemma skip_keep (p : ascii -> bool) (l rest : list ascii) :
  l <> [] -> Forall (fun c => p c = false) l -> skip p (l ++ rest) = l ++ rest.
Proof.
  intros Hne Hall. destruct l as [|c l]; [done|].
  apply Forall_cons in Hall as [Hc _]. simpl. by rewrite Hc.
Qed.

Lemma skip_all (p : ascii -> bool) (l rest : list ascii) :
  Forall (fun c => p c = true) l -> skip p (l ++ rest) = skip p rest.
Proof.
  induction 1 as [|c l Hc Hall IH]; simpl; [done|]. by rewrite Hc.
Qed.

Lemma string_app_assoc (a b c : string) : (a +:+ b) +:+ c = a +:+ b +:+ c.
Proof.
  induction a as [|x a IH]; [done|].
  change (String x ((a +:+ b) +:+ c) = String x (a +:+ b +:+ c)). by rewrite IH.
Qed.

Lemma concat_snoc (x : string) (d : list string) (f : string) :
  String.concat "/" ((x :: d) ++ [f]) = String.concat "/" (x :: d) +:+ String "/" f.
Proof.
  revert x. induction d as [|y d IH]; intros x; [done|].
  change (String.concat "/" ((x :: y :: d) ++ [f]))
    with (x +:+ "/" +:+ String.concat "/" ((y :: d) ++ [f])).
  rewrite IH, concat_cons_cons. by rewrite !string_app_assoc.
Qed.

Lemma dirname_rooted (rest : string) :
  dirname (String "/" rest)
  = match skip (fun c => negb (isSlash c))
            (skip isSlash (rev (list_ascii_of_string rest))) with
    | [] => "/"
    | _ :: before_end =>
        if (List.length before_end =? 0)%nat then "//"
        else String "/" (string_of_list_ascii (rev before_end))
    end.
Proof. reflexivity. Qed.

(** The directory of a file given by plain names. *)
Lemma dirname_absolute (d : list string) (f : string) :
  Forall (fun seg => plainName seg = true) d -> plainName f = true ->
  dirname (absolute (d ++ [f])) = absolute d.
Proof.
  intros Hd Hf. apply plainName_spec in Hf as (Hfne & _ & _ & Hfall).
  assert (Hrev : Forall (fun c => isSlash c = false) (rev (list_ascii_of_string f)))
    by by apply Forall_rev.
  assert (Hrev' : Forall (fun c => negb (isSlash c) = true) (rev (list_ascii_of_string f)))
    by (eapply Forall_impl; [exact Hrev|]; by intros c ->).
  assert (Hrevne : rev (list_ascii_of_string f) <> []).
  { destruct f as [|c f]; [done|]. simpl. intros H. symmetry in H.
    by apply app_cons_not_nil in H. }
  change (absolute (d ++ [f])) with (String "/" (String.concat "/" (d ++ [f]))).
  rewrite dirname_rooted.
  destruct d as [|x d].
  - change (String.concat "/" ([] ++ [f])) with f.
    rewrite <- (app_nil_r (rev (list_ascii_of_string f))).
    rewrite skip_keep, skip_all by done. reflexivity.
  - rewrite concat_snoc, chars_app.
    change (list_ascii_of_string (String "/" f)) with ("/"%char :: list_ascii_of_string f).
    rewrite rev_app_distr.
    change (rev ("/"%char :: list_ascii_of_string f))
      with (rev (list_ascii_of_string f) ++ ["/"%char]).
    rewrite <- !app_assoc.
    rewrite skip_keep, skip_all by done.
    change (skip (fun c => negb (isSlash c))
              (["/"%char] ++ rev (list_ascii_of_string (String.concat "/" (x :: d)))))
      with ("/"%char :: rev (list_ascii_of_string (String.concat "/" (x :: d)))).
    cbv iota beta.
    apply Forall_cons in Hd as [Hx _].
    destruct (concat_plain_nonempty x d Hx) as [Hne _].
    rewrite length_rev, rev_involutive, string_of_list_ascii_of_string.
    unfold absolute.
    destruct (String.concat "/" (x :: d)) as [|c t] eqn:Hc; [done|]. reflexivity.
Qed.

Lemma forallb_Forall_true {A} (f : A -> bool) (l : list A) :
  forallb f l = true -> Forall (fun x => f x = true) l.
Proof.
  induction l as [|x l IH]; simpl; [constructor|].
  intros H. apply andb_true_iff in H as [Hx Hl]. constructor; auto.
Qed.

(** C8: [getOutputFilePath] is the file's path relative to the directory of
    the configuration file, resolved against the output directory; so, with
    Node's POSIX paths, a file at [r] under the configuration directory [d]
    is mapped to [r] under the output directory [o]. *)
Theorem output_path_mirrors_configuration_directory
    (cwd0 : string) (opt : Options) (d r o : list string) (configName : string) :
  forallb plainName d = true -> forallb plainName r = true ->
  forallb plainName o = true -> plainName configName = true ->
  tsconfig opt = absolute (d ++ [configName]) ->
  outputFolder opt = absolute o ->
  @getOutputFilePath (node_path cwd0) (absolute (d ++ r)) opt = absolute (o ++ r)
  /\ forall (np : path.t) (filePath : string) (opt' : Options),
       @getOutputFilePath np filePath opt'
       = path.resolve
           [outputFolder opt';
            path.relative (path.dirname (tsconfig opt')) (path.resolve [filePath])].
Proof.
  intros Hd Hr Ho Hc Hts Hout. split; [|reflexivity].
  apply forallb_Forall_true in Hd, Hr, Ho.
  unfold getOutputFilePath, getRelativePath, getDirectory. rewrite Hts, Hout.
  cbn [path.resolve path.relative path.dirname node_path].
  rewrite dirname_absolute by done.
  rewrite resolve_absolute by (by apply Forall_app).
  rewrite relative_under by done.
  by apply resolve_against.
Qed.

End PosixFacts.

(** *** The properties at work on the sample project *)

Lemma output_path_mirrors_configuration_directory_witness :
  @getOutputFilePath (posix.node_path "/home/user") "/proj/src/x.ts"
    (mkOptions "/home/user" "/proj/tsconfig.json" "/proj/out" [] true)
  = "/proj/out/src/x.ts".
Proof.
  exact (proj1 (output_path_mirrors_configuration_directory "/home/user"
                  (mkOptions "/home/user" "/proj/tsconfig.json" "/proj/out" [] true)
                  ["proj"] ["src"; "x.ts"] ["proj"; "out"] "tsconfig.json"
                  eq_refl eq_refl eq_refl eq_refl eq_refl eq_refl)).
Defined.

Lemma skipped_files_never_yielded_witness :
  underNodeModules (SourceFile.fileName Sample.dep_ts)
  /\ forall w,
       genCodeFixes_visit (fun _ => None) Sample.project None Sample.dep_ts w
       = (Normal None, w).
Proof.
  assert (H : underNodeModules (SourceFile.fileName Sample.dep_ts)).
  { exists "/proj", "/"%char, "/"%char, "dep/index.ts". repeat split. }
  split; [exact H|].
  apply (skipped_files_never_yielded (fun _ => None) Sample.project None Sample.dep_ts).
  left. exact H.
Defined.

Lemma zero_or_many_candidates_witness :
  genCodeFixes_visit (fun _ => None) Sample.project None Sample.b_ts Sample.world0
  = (Normal None, mkWorld ∅ [log "Getting codefixes for /proj/src/b.ts"])
  /\ genCodeFixes_visit (fun _ => None) Sample.project None Sample.c_ts Sample.world0
     = (Normal (Some (Yield.mk "/proj/src/c.ts" [edit 5 0 ": string"])),
        mkWorld ∅ [log "Getting codefixes for /proj/src/c.ts";
                   log "Multiple fixes found for /proj/src/c.ts"]).
Proof.
  assert (Hsub : forall (f : SourceFile.t) (subset : gset string),
             None = Some subset -> SourceFile.fileName f ∈ subset)
    by (intros ? ? [=]).
  split.
  - destruct (zero_or_many_candidates (fun _ => None) Sample.project None Sample.b_ts
                Sample.world0 eq_refl eq_refl (Hsub _)) as [Hzero _].
    exact (proj1 (Hzero eq_refl)).
  - destruct (zero_or_many_candidates (fun _ => None) Sample.project None Sample.c_ts
                Sample.world0 eq_refl eq_refl (Hsub _)) as [_ Hmany].
    exact (proj1 (Hmany _ _ _ eq_refl)).
Defined.

Lemma dry_run_never_writes_witness :
  exists calls,
    hostCalls
      (@codefixProject (posix.node_path "/proj") Sample.onlyA (fun _ => None)
         (fun _ _ => Normal (Some Sample.project)) Sample.host Sample.opt Sample.world0).2
    = hostCalls Sample.world0 ++ calls
    /\ Forall (fun c => isWriteFile c = false) calls.
Proof.
  apply (@dry_run_never_writes (posix.node_path "/proj") Sample.onlyA (fun _ => None)
           (fun _ _ => Normal (Some Sample.project)) Sample.host Sample.opt Sample.world0).
  reflexivity.
Defined.

(** The subset validation of the specification: of a.ts and missing.ts only
    the first exists; of missing1.ts and missing2.ts none does. *)
Example checkOptions_some_valid :
  @checkOptions (posix.node_path "/proj") Sample.onlyA
    (mkOptions "/proj" "/proj/tsconfig.json" "/proj/out" ["a.ts"; "missing.ts"] false)
  = Normal (["/proj/a.ts"], ["/proj/missing.ts"]).
Proof. reflexivity. Qed.

Example checkOptions_none_valid :
  @checkOptions (posix.node_path "/proj") Sample.onlyA
    (mkOptions "/proj" "/proj/tsconfig.json" "/proj/out" ["missing1.ts"; "missing2.ts"] false)
  = Throw (Error "All provided files are invalid").
Proof. reflexivity. Qed.

(** A dry run and a writing run of the sample project. *)
Example codefixProject_dry_run :
  let run := @codefixProject (posix.node_path "/proj") Sample.onlyA (fun _ => None)
               (fun _ _ => Normal (Some Sample.project)) Sample.host Sample.opt
               Sample.world0 in
  run.1 = Normal "Done"
  /\ hostCalls run.2
     = [log "Using TypeScript 5.4.5";
        log "Getting codefixes for /proj/src/a.ts";
        log "Applying fixes to file: /proj/src/a.ts";
        log "Getting codefixes for /proj/src/b.ts";
        log "Getting codefixes for /proj/src/c.ts";
        log "Multiple fixes found for /proj/src/c.ts";
        log "Applying fixes to file: /proj/src/c.ts"]
  /\ newText <$> allChangedFiles run.2 !! "/proj/src/a.ts" = Some "Zbcde-fgh".
Proof. vm_compute. repeat split. Qed.

Example codefixProject_writing_run :
  hostCalls
    (@codefixProject (posix.node_path "/proj") Sample.onlyA (fun _ => None)
       (fun _ _ => Normal (Some Sample.project)) Sample.host
       (mkOptions "/proj" "/proj/tsconfig.json" "/proj/out" [] true)
       Sample.world0).2
  = [log "Using TypeScript 5.4.5";
     log "Getting codefixes for /proj/src/a.ts";
     log "Applying fixes to file: /proj/src/a.ts";
     exists_ "/proj/out/src"; mkdir "/proj/out/src";
     writeFile "/proj/out/src/a.ts" "Zbcde-fgh";
     log "Updated out/src/a.ts";
     log "Getting codefixes for /proj/src/b.ts";
     log "Getting codefixes for /proj/src/c.ts";
     log "Multiple fixes found for /proj/src/c.ts";
     log "Applying fixes to file: /proj/src/c.ts";
     exists_ "/proj/out/src"; mkdir "/proj/out/src";
     writeFile "/proj/out/src/c.ts" "let c: string";
     log "Updated out/src/c.ts"].
Proof. vm_compute. reflexivity. Qed.

(** ** Further properties *)

(** *** Patch applier *)

Lemma chars_substring (n m : nat) (s : string) :
  list_ascii_of_string (String.substring n m s)
  = take m (drop n (list_ascii_of_string s)).
Proof.
  revert n m. induction s as [|c s IH]; intros [|n] [|m]; simpl; try done.
  f_equal. apply (IH 0%nat m).
Qed.

Lemma chars_length (s : string) :
  List.length (list_ascii_of_string s) = String.length s.
Proof. induction s as [|c s IH]; simpl; [done|]. by rewrite IH. Qed.

Lemma chars_inj (a b : string) :
  list_ascii_of_string a = list_ascii_of_string b -> a = b.
Proof.
  intros H. rewrite <- (string_of_list_ascii_of_string a),
              <- (string_of_list_ascii_of_string b). by rewrite H.
Qed.

Lemma doTextChangeOnString_chars (text : string) (c : ts.TextChange) :
  list_ascii_of_string (doTextChangeOnString text c)
  = take (JS.clamp (String.length text) (ts.start (ts.span c))) (list_ascii_of_string text)
    ++ list_ascii_of_string (ts.newText c)
    ++ drop (JS.clamp (String.length text) (span_end c)) (list_ascii_of_string text).
Proof.
  rewrite doTextChangeOnString_clamped. cbv zeta.
  rewrite !chars_app, !chars_substring, drop_0.
  rewrite (take_ge (drop _ _)); [done|].
  rewrite length_drop, chars_length. lia.
Qed.

(** X1: the edits of a list are applied from its end, so the edits of
    [E1 ++ E2] are those of [E2] applied to the text, then those of [E1]
    applied to the result. *)
Theorem doTextChanges_app (T : string) (E1 E2 : list ts.TextChange) :
  doTextChanges T (E1 ++ E2)
  = match doTextChanges T E2 with
    | Normal T' => doTextChanges T' E1
    | Throw e => Throw e
    end.
Proof.
  rewrite (doTextChanges_foldl T E2). cbv iota beta.
  by rewrite !doTextChanges_foldl, reverse_app, foldl_app.
Qed.

(** X2: an edit whose span lies within the text changes the length of the
    text by the length of the replacement minus the length of the span. *)
Theorem doTextChangeOnString_length (text : string) (c : ts.TextChange) :
  0 <= ts.start (ts.span c) -> 0 <= ts.length (ts.span c) ->
  span_end c <= Z.of_nat (String.length text) ->
  Z.of_nat (String.length (doTextChangeOnString text c))
  = Z.of_nat (String.length text) - ts.length (ts.span c)
    + Z.of_nat (String.length (ts.newText c)).
Proof.
  intros Hs Hl He. unfold span_end in He.
  rewrite <- (chars_length (doTextChangeOnString text c)), doTextChangeOnString_chars.
  replace (JS.clamp (String.length text) (ts.start (ts.span c)))
    with (Z.to_nat (ts.start (ts.span c))) by (unfold JS.clamp; lia).
  replace (JS.clamp (String.length text) (span_end c))
    with (Z.to_nat (span_end c)) by (unfold span_end, JS.clamp; lia).
  rewrite !length_app, length_take, length_drop, !chars_length.
  unfold span_end. lia.
Qed.

Lemma doTextChangeOnString_length_witness :
  Z.of_nat (String.length (doTextChangeOnString "abcdefgh" (edit 2 3 "-")))
  = Z.of_nat (String.length "abcdefgh") - 3 + Z.of_nat (String.length "-").
Proof.
  apply (doTextChangeOnString_length "abcdefgh" (edit 2 3 "-"));
    unfold span_end; simpl; lia.
Defined.

(** X3: out of the text. An edit that starts at or after the end of the
    text appends its replacement and removes nothing; an edit whose span
    starts at or before offset 0 and ends at or after the end of the text
    replaces the whole text. *)
Theorem doTextChangeOnString_out_of_range (text : string) (c : ts.TextChange) :
  (Z.of_nat (String.length text) <= ts.start (ts.span c) ->
   0 <= ts.length (ts.span c) ->
   doTextChangeOnString text c = text +:+ ts.newText c)
  /\ (ts.start (ts.span c) <= 0 ->
      Z.of_nat (String.length text) <= span_end c ->
      doTextChangeOnString text c = ts.newText c).
Proof.
  split.
  - intros Hs Hl. apply chars_inj.
    rewrite doTextChangeOnString_chars, chars_app.
    rewrite take_ge, drop_ge, app_nil_r; [done| |];
      rewrite chars_length; unfold span_end, JS.clamp; lia.
  - intros Hs He. apply chars_inj. rewrite doTextChangeOnString_chars.
    replace (JS.clamp (String.length text) (ts.start (ts.span c))) with 0%nat
      by (unfold JS.clamp; lia).
    rewrite take_0, drop_ge, app_nil_r; [done|].
    rewrite chars_length. unfold JS.clamp. lia.
Qed.

Lemma substring_chars_in_range (T : string) (a b : Z) :
  0 <= a -> a <= b -> b <= Z.of_nat (String.length T) ->
  list_ascii_of_string (JS.substring T a (Some b))
  = take (Z.to_nat b - Z.to_nat a) (drop (Z.to_nat a) (list_ascii_of_string T)).
Proof.
  intros Ha Hab Hb. unfold JS.substring. rewrite chars_substring.
  replace (JS.clamp (String.length T) a) with (Z.to_nat a) by (unfold JS.clamp; lia).
  replace (JS.clamp (String.length T) b) with (Z.to_nat b) by (unfold JS.clamp; lia).
  by rewrite Nat.min_l, Nat.max_r by lia.
Qed.

Lemma substring_chars_from (T : string) (a : Z) :
  0 <= a -> a <= Z.of_nat (String.length T) ->
  list_ascii_of_string (JS.substring T a None)
  = drop (Z.to_nat a) (list_ascii_of_string T).
Proof.
  intros Ha Hb. unfold JS.substring. rewrite chars_substring.
  replace (JS.clamp (String.length T) a) with (Z.to_nat a) by (unfold JS.clamp; lia).
  rewrite Nat.min_l, Nat.max_r by lia.
  rewrite take_ge; [done|]. rewrite length_drop, chars_length. lia.
Qed.

Lemma placedFrom_le (T : string) (p : Z) (E : list ts.TextChange) :
  placedFrom T p E = true -> p <= Z.of_nat (String.length T).
Proof.
  revert p. induction E as [|c E IH]; intros p; simpl.
  - lia.
  - rewrite !andb_true_iff. intros [[Hp Hl] HE]. apply IH in HE.
    unfold span_end in HE. lia.
Qed.

(** The edits of a placed list, applied from the last to the first, leave
    the text before them as it is and turn the rest into its splice. *)
Lemma foldl_placed (T : string) (p : Z) (E : list ts.TextChange) :
  0 <= p -> placedFrom T p E = true ->
  list_ascii_of_string (foldl doTextChangeOnString T (reverse E))
  = take (Z.to_nat p) (list_ascii_of_string T) ++ list_ascii_of_string (splice T p E).
Proof.
  revert p. induction E as [|c E IH]; intros p Hp Hplaced.
  - simpl in *. rewrite substring_chars_from by lia. by rewrite take_drop.
  - pose proof (placedFrom_le _ _ _ Hplaced) as HpT.
    simpl in Hplaced. rewrite !andb_true_iff in Hplaced.
    destruct Hplaced as [[Hps Hl] HE].
    pose proof (placedFrom_le _ _ _ HE) as HeT.
    assert (Hse : ts.start (ts.span c) <= span_end c) by (unfold span_end; lia).
    rewrite reverse_cons, foldl_app. cbn [foldl].
    rewrite doTextChangeOnString_chars.
    set (text := foldl doTextChangeOnString T (reverse E)).
    assert (HS : list_ascii_of_string text
                 = take (Z.to_nat (span_end c)) (list_ascii_of_string T)
                   ++ list_ascii_of_string (splice T (span_end c) E))
      by (apply IH; [lia|done]).
    assert (Hlen : (Z.to_nat (span_end c) <= String.length text)%nat).
    { rewrite <- (chars_length text), HS, length_app, length_take, chars_length. lia. }
    replace (JS.clamp (String.length text) (ts.start (ts.span c)))
      with (Z.to_nat (ts.start (ts.span c))) by (unfold JS.clamp; lia).
    replace (JS.clamp (String.length text) (span_end c))
      with (Z.to_nat (span_end c)) by (unfold JS.clamp; lia).
    rewrite HS.
    rewrite take_app_le by (rewrite length_take, chars_length; lia).
    rewrite take_take, Nat.min_l by lia.
    rewrite drop_app_length' by (rewrite length_take, chars_length; lia).
    cbn [splice]. rewrite !chars_app, substring_chars_in_range by lia.
    rewrite (app_assoc (take (Z.to_nat p) _)), take_take_drop.
    by replace (Z.to_nat p + (Z.to_nat (ts.start (ts.span c)) - Z.to_nat p))%nat
      with (Z.to_nat (ts.start (ts.span c))) by lia.
Qed.

(** X4: for edits given in ascending order, each within the text and after
    the one before, [doTextChanges] returns the text with every span
    replaced where the original text has it: the offsets of all the edits
    are offsets of the original text. *)
Theorem doTextChanges_simultaneous (T : string) (E : list ts.TextChange) :
  placedFrom T 0 E = true ->
  doTextChanges T E = Normal (splice T 0 E).
Proof.
  intros Hplaced. rewrite doTextChanges_foldl. f_equal. apply chars_inj.
  by rewrite (foldl_placed T 0 E).
Qed.

Lemma doTextChanges_simultaneous_witness :
  doTextChanges "abcdefgh" [edit 0 1 "ZZ"; edit 3 0 "+"; edit 5 2 ""]
  = Normal (splice "abcdefgh" 0 [edit 0 1 "ZZ"; edit 3 0 "+"; edit 5 2 ""]).
Proof.
  apply doTextChanges_simultaneous. reflexivity.
Defined.

Example splice_try :
  splice "abcdefgh" 0 [edit 0 1 "ZZ"; edit 3 0 "+"; edit 5 2 ""] = "ZZbc+deh".
Proof. reflexivity. Qed.

(** *** The fix enumerator and the run *)

Section RunFacts.

Context {node_path : path.t}.
Variable fs_existsSync : string -> bool.
Variable sys_readFile : string -> option string.
Variable loadProject : (string -> option string) -> string -> completion (option Project).
Variable host : Host.

Lemma world_eta (w : World) : mkWorld (allChangedFiles w) (hostCalls w ++ []) = w.
Proof. destruct w. simpl. by rewrite app_nil_r. Qed.

(** What one turn of the generator's loop does. *)
Lemma genCodeFixes_visit_inv project files file w :
  exists r logs,
    genCodeFixes_visit sys_readFile project files file w
    = (Normal r, mkWorld (allChangedFiles w) (hostCalls w ++ logs))
    /\ Forall (fun c => isLog c = true) logs
    /\ forall y, r = Some y ->
         Yield.fileName y = SourceFile.fileName file
         /\ node_modules_test (SourceFile.fileName file) = false
         /\ SourceFile.isDeclarationFile file = false
         /\ (forall subset, files = Some subset -> SourceFile.fileName file ∈ subset)
         /\ exists first others,
              getCombinedCodeFix project (readFile sys_readFile (allChangedFiles w))
                (SourceFile.fileName file) = first :: others
              /\ Yield.textChanges y = ts.textChanges first.
Proof.
  unfold genCodeFixes_visit.
  destruct (node_modules_test _) eqn:Hnm;
    [exists None, []; rewrite world_eta; by repeat split|].
  destruct (SourceFile.isDeclarationFile _) eqn:Hdecl;
    [exists None, []; rewrite world_eta; by repeat split|].
  destruct (match files with Some _ => _ | None => _ end) eqn:Hsub;
    [exists None, []; rewrite world_eta; by repeat split|].
  assert (Hin : forall subset, files = Some subset -> SourceFile.fileName file ∈ subset).
  { intros subset ->. apply negb_false_iff in Hsub. by apply bool_decide_eq_true in Hsub. }
  run_M. destruct (getCombinedCodeFix _ _ _) as [|first others] eqn:Hfix.
  - exists None, [log ("Getting codefixes for " +:+ SourceFile.fileName file)].
    split; [reflexivity|]. split; [by repeat constructor|]. by intros y [=].
  - destruct (1 <? _)%nat.
    + exists (Some (Yield.mk (SourceFile.fileName file) (ts.textChanges first))),
        [log ("Getting codefixes for " +:+ SourceFile.fileName file);
         log ("Multiple fixes found for " +:+ SourceFile.fileName file)].
      split; [simpl; by rewrite <- app_assoc|]. split; [by repeat constructor|].
      intros y [= <-]. repeat split; eauto.
    + exists (Some (Yield.mk (SourceFile.fileName file) (ts.textChanges first))),
        [log ("Getting codefixes for " +:+ SourceFile.fileName file)].
      split; [reflexivity|]. split; [by repeat constructor|].
      intros y [= <-]. repeat split; eauto.
Qed.

(** What [writeToFile] does. *)
Lemma writeToFile_run fileName fileContents opt w :
  let out := getOutputFilePath fileName opt in
  let dir := getDirectory out in
  writeToFile host fileName fileContents opt w
  = (Normal out,
     mkWorld (allChangedFiles w)
       (hostCalls w ++
        exists_ dir
        :: (if existsAnswer host (hostCalls w) dir then [] else [mkdir dir])
        ++ [writeFile out fileContents;
            log ("Updated " +:+ path.relative (cwd opt) out)])).
Proof.
  unfold writeToFile. run_M.
  destruct (existsAnswer host (hostCalls w) _); simpl;
    by rewrite <- ?app_assoc.
Qed.

(** What the loop body of [codefixProject] does. *)
Lemma applyFixes_run opt project y w :
  applyFixes host opt project y w
  = let name := Yield.fileName y in
    let logged := hostCalls w ++ [log ("Applying fixes to file: " +:+ name)] in
    match getSourceFile project name with
    | None =>
        (Throw (Error ("File " +:+ name +:+ " not found in project")),
         mkWorld (allChangedFiles w) logged)
    | Some sourceFile =>
        match doTextChanges (SourceFile.text sourceFile) (Yield.textChanges y) with
        | Throw e => (Throw e, mkWorld (allChangedFiles w) logged)
        | Normal changedFile =>
            let recorded :=
              mkWorld (<[name := mkChangedFile (SourceFile.text sourceFile) changedFile]>
                         (allChangedFiles w)) logged in
            if write opt
            then (Normal tt, (writeToFile host name changedFile opt recorded).2)
            else (Normal tt, recorded)
        end
    end.
Proof.
  unfold applyFixes. run_M.
  destruct (getSourceFile project _) as [sf|]; [|done].
  destruct (doTextChanges _ _) as [new|e]; [|done]. simpl.
  destruct (write opt); [|done]. run_M.
  by rewrite writeToFile_run.
Qed.

(** X5: the values the generator yields follow the order of the source
    files of the program, with at most one value for each source file: the
    file names yielded are a sublist of the file names of the program. *)
Theorem yielded_in_order project files (l : list SourceFile.t) body w :
  sublist (Yield.fileName <$> yielded sys_readFile project files l body w)
          (SourceFile.fileName <$> l).
Proof.
  revert w. induction l as [|file rest IH]; intros w; [constructor|].
  cbn [yielded fmap list_fmap].
  destruct (genCodeFixes_visit_inv project files file w) as (r & logs & -> & _ & Hr).
  destruct r as [y|].
  - destruct (Hr y eq_refl) as (<- & _). cbn [fmap list_fmap].
    apply sublist_skip. destruct (body y _) as [[[]|e] w2]; [apply IH|].
    apply sublist_nil_l.
  - apply sublist_cons, IH.
Qed.

(** X6: every value the generator yields is for a source file that is
    outside node_modules, is not a declaration file and belongs to the file
    subset when there is one, and carries the text changes of the first
    combined change the provider returned for it. *)
Theorem yielded_passed_filters project files (l : list SourceFile.t) body w (y : Yield.t) :
  y ∈ yielded sys_readFile project files l body w ->
  exists file,
    file ∈ l
    /\ SourceFile.fileName file = Yield.fileName y
    /\ node_modules_test (Yield.fileName y) = false
    /\ SourceFile.isDeclarationFile file = false
    /\ (forall subset, files = Some subset -> Yield.fileName y ∈ subset)
    /\ exists readFile' first others,
         getCombinedCodeFix project readFile' (Yield.fileName y) = first :: others
         /\ Yield.textChanges y = ts.textChanges first.
Proof.
  revert w. induction l as [|file rest IH]; intros w; [by intros ?%elem_of_nil|].
  cbn [yielded].
  destruct (genCodeFixes_visit_inv project files file w) as (r & logs & -> & _ & Hr).
  assert (Hrest : forall w', y ∈ yielded sys_readFile project files rest body w' ->
            exists file0, file0 ∈ file :: rest
              /\ SourceFile.fileName file0 = Yield.fileName y
              /\ node_modules_test (Yield.fileName y) = false
              /\ SourceFile.isDeclarationFile file0 = false
              /\ (forall subset, files = Some subset -> Yield.fileName y ∈ subset)
              /\ exists readFile' first others,
                   getCombinedCodeFix project readFile' (Yield.fileName y) = first :: others
                   /\ Yield.textChanges y = ts.textChanges first).
  { intros w' Hin. destruct (IH w' Hin) as (file0 & Hfile0 & Hrest).
    exists file0. split; [by right|done]. }
  destruct r as [y0|]; [|apply Hrest].
  intros [->|Hin]%elem_of_cons.
  - destruct (Hr y0 eq_refl) as (Hname & Hnm & Hdecl & Hsub & first & others & Hfix & Hch).
    exists file. rewrite Hname. repeat split; [by left|done|done|done|eauto].
  - destruct (body y0 _) as [[[]|e] w2]; [by eapply Hrest|by apply elem_of_nil in Hin].
Qed.

Lemma loop_cons project files file rest body w :
  genCodeFixesFromProject sys_readFile project files (file :: rest) body w
  = match genCodeFixes_visit sys_readFile project files file w with
    | (Normal (Some y), w1) =>
        match body y w1 with
        | (Normal _, w2) => genCodeFixesFromProject sys_readFile project files rest body w2
        | (Throw e, w2) => (Throw e, w2)
        end
    | (Normal None, w1) => genCodeFixesFromProject sys_readFile project files rest body w1
    | (Throw e, w1) => (Throw e, w1)
    end.
Proof.
  cbn [genCodeFixesFromProject]. unfold bind, ret.
  by destruct (genCodeFixes_visit _ _ _ _ _) as [[[y|]|e] w1].
Qed.

Lemma applyFixes_outcome opt project y w :
  (applyFixes host opt project y w).1 = Normal tt
  \/ (getSourceFile project (Yield.fileName y) = None
      /\ (applyFixes host opt project y w).1
         = Throw (Error ("File " +:+ Yield.fileName y +:+ " not found in project"))).
Proof.
  rewrite applyFixes_run. cbv zeta.
  destruct (getSourceFile project _) as [sf|]; [|by right].
  rewrite doTextChanges_foldl. left. by destruct (write opt).
Qed.

Lemma loop_outcome opt project files l w :
  (genCodeFixesFromProject sys_readFile project files l (applyFixes host opt project) w).1
  = Normal tt
  \/ exists name,
       getSourceFile project name = None
       /\ (genCodeFixesFromProject sys_readFile project files l
             (applyFixes host opt project) w).1
          = Throw (Error ("File " +:+ name +:+ " not found in project")).
Proof.
  revert w. induction l as [|file rest IH]; intros w; [by left|].
  rewrite loop_cons.
  destruct (genCodeFixes_visit_inv project files file w) as (r & logs & -> & _ & _).
  destruct r as [y|]; [|apply IH].
  destruct (applyFixes_outcome opt project y
              (mkWorld (allChangedFiles w) (hostCalls w ++ logs))) as [Hok|[Hnone Hthrow]].
  - destruct (applyFixes host opt project y _) as [[[]|e] w2]; [apply IH|discriminate].
  - right. exists (Yield.fileName y). split; [done|].
    destruct (applyFixes host opt project y _) as [[[]|e] w2]; [discriminate|].
    simpl in *. congruence.
Qed.

(** X7: how a run can end when every call of a host method and of the fix
    provider returns normally, as [Host] and [Project] take them to.
    [codefixProject] returns "Done" when the project was created and
    "Error: Could not create project." when there is none; of its own it
    throws only the error of [checkOptions], the error thrown while the
    project is created, or "File ... not found in project" for a file the
    program does not have. *)
Theorem codefixProject_outcomes (opt : Options) (w : World) :
  let created :=
    loadProject (readFile sys_readFile ∅) (path.resolve [tsconfig opt]) in
  match (codefixProject fs_existsSync sys_readFile loadProject host opt w).1 with
  | Normal s =>
      (s = "Done" /\ exists project, created = Normal (Some project))
      \/ (s = "Error: Could not create project." /\ created = Normal None)
  | Throw e =>
      (e = Error "All provided files are invalid"
       /\ checkOptions fs_existsSync opt = Throw e)
      \/ created = Throw e
      \/ exists project name,
           created = Normal (Some project)
           /\ getSourceFile project name = None
           /\ e = Error ("File " +:+ name +:+ " not found in project")
  end.
Proof.
  cbv zeta. unfold codefixProject. unfold bind at 1. unfold lift.
  pose proof (checkOptions_eq fs_existsSync opt) as Hcheck.
  destruct (checkOptions fs_existsSync opt) as [[valid invalid]|e] eqn:Hc.
  - unfold bind at 1. rewrite reportInvalidFiles_run.
    unfold fixProject. unfold bind at 1. unfold setOverlay at 1.
    unfold bind at 1. unfold createProject at 1. cbn [allChangedFiles].
    destruct (loadProject _ _) as [[project|]|e]; [|right; by split|by right; left].
    unfold bind at 1. unfold call at 1. unfold bind at 1.
    match goal with
    | |- context [genCodeFixesFromProject ?a ?b ?c ?d ?e ?f] =>
        destruct (loop_outcome opt b c d f) as [Hok|(name & Hnone & Hthrow)];
        destruct (genCodeFixesFromProject a b c d e f) as [[[]|e'] w2]
    end; simpl in *; try discriminate.
    + left. split; [done|]. by exists project.
    + right. right. exists project, name. repeat split; [done|congruence].
  - simpl. left. split; [|done].
    destruct (file opt); [discriminate|].
    destruct (List.filter _ _); congruence.
Qed.

Lemma loop_completes opt project files l w :
  (forall f, f ∈ l -> is_Some (getSourceFile project (SourceFile.fileName f))) ->
  (genCodeFixesFromProject sys_readFile project files l (applyFixes host opt project) w).1
  = Normal tt.
Proof.
  revert w. induction l as [|file rest IH]; intros w Hl; [done|].
  rewrite loop_cons.
  destruct (genCodeFixes_visit_inv project files file w) as (r & logs & -> & _ & Hr).
  assert (Hrest : forall f, f ∈ rest ->
            is_Some (getSourceFile project (SourceFile.fileName f)))
    by (intros f Hf; apply Hl; by right).
  destruct r as [y|]; [|by apply IH].
  destruct (Hr y eq_refl) as (Hname & _).
  destruct (applyFixes_outcome opt project y
              (mkWorld (allChangedFiles w) (hostCalls w ++ logs))) as [Hok|[Hnone _]].
  - destruct (applyFixes host opt project y _) as [[[]|e] w2]; [by apply IH|discriminate].
  - rewrite Hname in Hnone. destruct (Hl file) as [sf Hsf]; [by left|]. congruence.
Qed.

(** X8: when the requested files pass the check, the project is created,
    the program finds by name every source file it lists, and every call of
    a host method and of the fix provider returns normally (as [Host] and
    [Project] take them to), the run ends normally with "Done". *)
Theorem codefixProject_done (opt : Options) (w : World) checked (project : Project) :
  checkOptions fs_existsSync opt = Normal checked ->
  loadProject (readFile sys_readFile ∅) (path.resolve [tsconfig opt])
  = Normal (Some project) ->
  (forall f, f ∈ getSourceFiles project ->
             is_Some (getSourceFile project (SourceFile.fileName f))) ->
  (codefixProject fs_existsSync sys_readFile loadProject host opt w).1 = Normal "Done".
Proof.
  intros Hc Hload Hfound.
  unfold codefixProject. unfold bind at 1. unfold lift. rewrite Hc.
  destruct checked as [valid invalid].
  unfold bind at 1. rewrite reportInvalidFiles_run.
  unfold fixProject. unfold bind at 1. unfold setOverlay at 1.
  unfold bind at 1. unfold createProject at 1. cbn [allChangedFiles]. rewrite Hload.
  unfold bind at 1. unfold call at 1. unfold bind at 1.
  match goal with
  | |- context [genCodeFixesFromProject ?a ?b ?c ?d ?e ?f] =>
      pose proof (loop_completes opt b c d f Hfound) as Hok;
      destruct (genCodeFixesFromProject a b c d e f) as [[[]|e'] w2]
  end; [done|discriminate].
Qed.



Lemma bind_ret_world {A B} (m : M A) (b : B) (w : World) :
  (bind m (fun _ => ret b) w).2 = (m w).2.
Proof. unfold bind, ret. by destruct (m w) as [[a|e] w']. Qed.

(** The world [fixProject] ends in: that of the loop when the project is
    created, and otherwise the starting world with an empty overlay. *)
Lemma fixProject_world opt valid w :
  (fixProject sys_readFile loadProject host opt valid w).2
  = match loadProject (readFile sys_readFile ∅) (path.resolve [tsconfig opt]) with
    | Normal (Some project) =>
        (genCodeFixesFromProject sys_readFile project
           (if (0 <? List.length (file opt))%nat
            then Some (list_to_set valid)
            else None)
           (getSourceFiles project) (applyFixes host opt project)
           (mkWorld ∅ (hostCalls w ++ [log ("Using TypeScript " +:+ version project)]))).2
    | _ => mkWorld ∅ (hostCalls w)
    end.
Proof.
  unfold fixProject. unfold bind at 1. unfold setOverlay at 1.
  unfold bind at 1. unfold createProject at 1. cbn [allChangedFiles].
  destruct (loadProject _ _) as [[project|]|e]; [|done|done].
  unfold bind at 1. unfold call at 1. cbn [allChangedFiles hostCalls].
  apply bind_ret_world.
Qed.


Lemma filter_logs (logs : list HostCall) :
  Forall (fun c => isLog c = true) logs -> List.filter isWriteFile logs = [].
Proof.
  intros H. apply filter_nil_iff. eapply Forall_impl; [exact H|].
  by intros [] ?.
Qed.

(** X10: with [opt.write] set and every call of a host method returning
    normally (as [Host] takes them to), the [writeFile] calls of the loop
    are, in order, one for each yielded value whose source file the program
    has: the output path of the file with the text [doTextChanges]
    returns. *)
Theorem written_files opt project files (l : list SourceFile.t) (w : World) :
  write opt = true ->
  List.filter isWriteFile
    (hostCalls (genCodeFixesFromProject sys_readFile project files l
                  (applyFixes host opt project) w).2)
  = List.filter isWriteFile (hostCalls w)
    ++ flat_map (writeOf opt project)
         (yielded sys_readFile project files l (applyFixes host opt project) w).
Proof.
  intros Hwrite. revert w. induction l as [|file rest IH]; intros w.
  - simpl. by rewrite app_nil_r.
  - rewrite loop_cons. cbn [yielded].
    destruct (genCodeFixes_visit_inv project files file w) as (r & logs & -> & Hlogs & _).
    assert (Hw1 : List.filter isWriteFile (hostCalls w ++ logs)
                  = List.filter isWriteFile (hostCalls w))
      by (by rewrite List.filter_app, (filter_logs logs Hlogs), app_nil_r).
    destruct r as [y|]; [|rewrite IH; cbn [hostCalls]; by rewrite Hw1].
    cbn [flat_map]. unfold writeOf at 1.
    rewrite applyFixes_run. cbv zeta. rewrite Hwrite. cbn [allChangedFiles hostCalls].
    destruct (getSourceFile project _) as [sf|].
    + rewrite doTextChanges_foldl, writeToFile_run. cbv zeta.
      cbn [fst snd allChangedFiles hostCalls]. rewrite IH. cbn [hostCalls].
      destruct (existsAnswer host _ _);
        rewrite !List.filter_app, (filter_logs logs Hlogs);
        cbn [List.filter isWriteFile app];
        by rewrite ?app_nil_r, <- ?app_assoc.
    + cbn [fst snd hostCalls flat_map app].
      by rewrite !List.filter_app, (filter_logs logs Hlogs), !app_nil_r.
Qed.

Lemma callsOnly_loop opt project files l :
  write opt = false ->
  callsOnly isLog
    (genCodeFixesFromProject sys_readFile project files l (applyFixes host opt project)).
Proof.
  intros Hdry. induction l as [|file rest IH]; intros w.
  - exists []. by rewrite app_nil_r.
  - rewrite loop_cons.
    destruct (genCodeFixes_visit_inv project files file w) as (r & logs & -> & Hlogs & _).
    destruct r as [y|].
    + rewrite applyFixes_run. cbv zeta. rewrite Hdry. cbn [allChangedFiles hostCalls].
      set (applied := log ("Applying fixes to file: " +:+ Yield.fileName y)).
      destruct (getSourceFile project _) as [sf|].
      * rewrite doTextChanges_foldl.
        match goal with
        | |- context [genCodeFixesFromProject _ _ _ rest _ ?w1] =>
            destruct (IH w1) as (calls & -> & Hcalls)
        end.
        exists (logs ++ applied :: calls). cbn [hostCalls].
        rewrite <- !app_assoc. split; [done|].
        apply Forall_app. split; [done|]. by constructor.
      * exists (logs ++ [applied]). cbn [snd hostCalls]. rewrite <- app_assoc.
        split; [done|]. apply Forall_app. split; [done|]. by repeat constructor.
    + destruct (IH (mkWorld (allChangedFiles w) (hostCalls w ++ logs)))
        as (calls & -> & Hcalls).
      exists (logs ++ calls). cbn [hostCalls]. rewrite <- app_assoc.
      split; [done|]. by apply Forall_app.
Qed.

(** X11: in a run with [opt.write] false the host is only asked to log:
    the run makes no [exists], [mkdir] or [writeFile] call. *)
Theorem dry_run_only_logs (opt : Options) (w : World) :
  write opt = false ->
  exists calls,
    hostCalls (codefixProject fs_existsSync sys_readFile loadProject host opt w).2
    = hostCalls w ++ calls
    /\ Forall (fun c => isLog c = true) calls.
Proof.
  intros Hdry. unfold codefixProject. unfold bind at 1. unfold lift.
  destruct (checkOptions fs_existsSync opt) as [[valid invalid]|e];
    [|exists []; by rewrite app_nil_r].
  unfold bind at 1. rewrite reportInvalidFiles_run.
  set (report := match invalid with [] => [] | _ :: _ => _ end).
  assert (Hreport : Forall (fun c => isLog c = true) report).
  { subst report. destruct invalid; [constructor|]. constructor; [done|].
    apply Forall_fmap, Forall_true. done. }
  rewrite fixProject_world. cbn [hostCalls].
  destruct (loadProject _ _) as [[project|]|e].
  - match goal with
    | |- context [genCodeFixesFromProject _ _ ?fs ?l _ ?w1] =>
        destruct (callsOnly_loop opt project fs l Hdry w1) as (calls & -> & Hcalls)
    end.
    cbn [hostCalls]. exists (report ++ log ("Using TypeScript " +:+ version project) :: calls).
    rewrite <- !app_assoc. split; [done|].
    apply Forall_app. split; [done|]. by constructor.
  - exists report. by split.
  - exists report. by split.
Qed.

End RunFacts.

(** *** The test for node_modules and the segments of a path *)

Lemma concat_split (s : string) : String.concat "/" (posix.split s) = s.
Proof.
  induction s as [|c s IH]; [done|]. cbn [posix.split].
  destruct (split_nonempty s) as (seg & segs & Hs). rewrite Hs in *.
  destruct (posix.isSlash c) eqn:Hc.
  - rewrite concat_cons_cons, IH.
    apply Ascii.eqb_eq in Hc. by subst c.
  - destruct segs as [|seg' segs]; [simpl in *; by subst|].
    rewrite concat_cons_cons. rewrite concat_cons_cons in IH. by rewrite <- IH.
Qed.

Lemma concat_app_slash (l1 l2 : list string) :
  l1 <> [] -> l2 <> [] ->
  String.concat "/" (l1 ++ l2)
  = String.concat "/" l1 +:+ String "/" (String.concat "/" l2).
Proof.
  intros H1 H2. induction l1 as [|x [|y l1] IH]; [done| |].
  - destruct l2 as [|z l2]; [done|]. reflexivity.
  - change (String.concat "/" ((x :: y :: l1) ++ l2))
      with (x +:+ "/" +:+ String.concat "/" ((y :: l1) ++ l2)).
    rewrite IH by done. rewrite concat_cons_cons.
    by rewrite !string_app_assoc.
Qed.

Lemma chars_elem_app_r (a b : string) (c : ascii) :
  c ∈ list_ascii_of_string b -> c ∈ list_ascii_of_string (a +:+ b).
Proof. rewrite chars_app. intros H. apply elem_of_app. by right. Qed.

(** X12: for a file name without backslashes, the test for node_modules
    succeeds exactly when one of the segments of the name between slashes,
    neither the first nor the last, is node_modules. *)
Theorem node_modules_test_segments (s : string) :
  "\"%char ∉ list_ascii_of_string s ->
  node_modules_test s = true
  <-> exists l1 l2,
        l1 <> [] /\ l2 <> [] /\ posix.split s = l1 ++ "node_modules" :: l2.
Proof.
  intros Hno. rewrite node_modules_test_spec. split.
  - intros (pre & sep1 & sep2 & post & H1 & H2 & ->).
    assert (Hsep : forall sep rest pre',
              isSeparator sep = true ->
              "\"%char ∉ list_ascii_of_string (pre' +:+ String sep rest) ->
              sep = "/"%char).
    { intros sep rest pre' Hsep Hnot. unfold isSeparator in Hsep.
      apply orb_true_iff in Hsep as [Hb|Hs]; [|by apply Ascii.eqb_eq in Hs].
      apply Ascii.eqb_eq in Hb. subst sep. exfalso. apply Hnot.
      apply chars_elem_app_r. by left. }
    assert (sep1 = "/"%char) as -> by (by eapply Hsep).
    assert (sep2 = "/"%char) as ->.
    { apply (Hsep sep2 post (pre +:+ String "/" "node_modules")); [done|].
      by rewrite string_app_assoc. }
    exists (posix.split pre), (posix.split post).
    destruct (split_nonempty pre) as (a & l & Ha).
    destruct (split_nonempty post) as (b & l' & Hb).
    split; [by rewrite Ha|]. split; [by rewrite Hb|].
    by rewrite !split_app_slash.
  - intros (l1 & l2 & Hl1 & Hl2 & Hsplit).
    exists (String.concat "/" l1), "/"%char, "/"%char, (String.concat "/" l2).
    split; [done|]. split; [done|].
    rewrite <- (concat_split s), Hsplit.
    rewrite concat_app_slash by done.
    destruct l2 as [|b l2]; [done|]. by rewrite concat_cons_cons.
Qed.

Lemma node_modules_test_segments_witness :
  node_modules_test "/proj/node_modules/dep/index.ts" = true
  <-> exists l1 l2,
        l1 <> [] /\ l2 <> []
        /\ posix.split "/proj/node_modules/dep/index.ts" = l1 ++ "node_modules" :: l2.
Proof.
  apply node_modules_test_segments. vm_compute.
  intros H. repeat (apply elem_of_cons in H as [H|H]; [discriminate|]).
  by apply elem_of_nil in H.
Defined.

(** *** [isTypeScriptVersionSupported] *)

(** X13: a version is supported from 3.5 on, and a later version of a
    supported one is supported as well; a major number that is [NaN] counts
    as supported, whatever the minor number. *)
Theorem isTypeScriptVersionSupported_from_3_5 :
  (forall major minor : Z,
     isTypeScriptVersionSupported (Some major) (Some minor) = true
     <-> 4 <= major \/ (major = 3 /\ 5 <= minor))
  /\ (forall major minor major' minor' : Z,
        isTypeScriptVersionSupported (Some major) (Some minor) = true ->
        major < major' \/ (major = major' /\ minor <= minor') ->
        isTypeScriptVersionSupported (Some major') (Some minor') = true)
  /\ (forall minor, isTypeScriptVersionSupported None minor = true)
  /\ (forall major : Z,
        isTypeScriptVersionSupported (Some major) None = true <-> 4 <= major).
Proof.
  assert (Hiff : forall major minor : Z,
     isTypeScriptVersionSupported (Some major) (Some minor) = true
     <-> 4 <= major \/ (major = 3 /\ 5 <= minor)).
  { intros major minor. unfold isTypeScriptVersionSupported, lessThan, atLeast.
    destruct (Z.ltb_spec major 3); [split; [discriminate|lia]|].
    destruct (Z.ltb_spec major 4); [|split; [lia|done]].
    destruct (Z.leb_spec 5 minor); split; try done; try lia; discriminate. }
  split; [exact Hiff|]. split; [|split].
  - intros major minor major' minor' Hs Hle. apply Hiff. apply Hiff in Hs. lia.
  - done.
  - intros major. unfold isTypeScriptVersionSupported, lessThan, atLeast.
    destruct (Z.ltb_spec major 3); [split; [discriminate|lia]|].
    destruct (Z.ltb_spec major 4); split; try done; try lia; discriminate.
Qed.

(** *** [makeOptions] and the output path *)

Section MakeOptionsFacts.

Import posix.

Variable yargs : (string -> string) -> list string -> Argv.

(** X14: without an output folder on the command line (or with an empty
    one) the output folder is the directory of the configuration file, and
    a file under that directory is mapped to itself: a writing run
    overwrites the files it fixes. *)
Theorem makeOptions_in_place (cwd0 cwd : string) (args : list string)
    (d r : list string) (configName : string) :
  let argv := yargs (fun arg => resolve cwd0 [cwd; arg]) args in
  let opt := @makeOptions (node_path cwd0) yargs cwd args in
  forallb plainName d = true -> forallb plainName r = true ->
  plainName configName = true ->
  argv_outputFolder argv = None \/ argv_outputFolder argv = Some "" ->
  argv_tsconfig argv = absolute (d ++ [configName]) ->
  outputFolder opt = absolute d
  /\ @getOutputFilePath (node_path cwd0) (absolute (d ++ r)) opt = absolute (d ++ r).
Proof.
  intros argv opt Hd Hr Hc Hout Hts.
  apply forallb_Forall_true in Hd, Hr.
  assert (Hfolder : outputFolder opt = absolute d).
  { subst opt. unfold makeOptions. change (yargs _ args) with argv.
    cbn [outputFolder path.dirname node_path].
    rewrite Hts, dirname_absolute by done.
    by destruct Hout as [-> | ->]. }
  split; [exact Hfolder|].
  unfold getOutputFilePath, getRelativePath, getDirectory. rewrite Hfolder.
  replace (tsconfig opt) with (absolute (d ++ [configName])).
  cbn [path.resolve path.relative path.dirname node_path].
  rewrite dirname_absolute by done.
  rewrite resolve_absolute by (by apply Forall_app).
  rewrite relative_under by done.
  by apply resolve_against.
Qed.

(** X15: an output folder given relative to the working directory is
    resolved against it, and a file under the directory of the
    configuration file keeps its relative path under that folder. *)
Theorem makeOptions_output_folder (cwd0 : string) (args : list string)
    (c o d r : list string) (configName : string) :
  let argv := yargs (fun arg => resolve cwd0 [absolute c; arg]) args in
  let opt := @makeOptions (node_path cwd0) yargs (absolute c) args in
  forallb plainName c = true -> forallb plainName o = true -> o <> [] ->
  forallb plainName d = true -> forallb plainName r = true ->
  plainName configName = true ->
  argv_outputFolder argv = Some (String.concat "/" o) ->
  argv_tsconfig argv = absolute (d ++ [configName]) ->
  outputFolder opt = absolute (c ++ o)
  /\ @getOutputFilePath (node_path cwd0) (absolute (d ++ r)) opt
     = absolute ((c ++ o) ++ r).
Proof.
  intros argv opt Hc Ho Hone Hd Hr Hname Hout Hts.
  apply forallb_Forall_true in Hc, Ho, Hd, Hr.
  assert (Hfolder : outputFolder opt = absolute (c ++ o)).
  { subst opt. unfold makeOptions. change (yargs _ args) with argv.
    cbn [outputFolder]. rewrite Hout.
    destruct o as [|x o]; [done|].
    pose proof Ho as Hx. apply Forall_cons in Hx as [Hx _].
    destruct (concat_plain_nonempty x o Hx) as [-> _].
    cbn [path.resolve node_path]. by apply resolve_against. }
  split; [exact Hfolder|].
  unfold getOutputFilePath, getRelativePath, getDirectory. rewrite Hfolder.
  replace (tsconfig opt) with (absolute (d ++ [configName])).
  cbn [path.resolve path.relative path.dirname node_path].
  rewrite dirname_absolute by done.
  rewrite resolve_absolute by (by apply Forall_app).
  rewrite relative_under by done.
  apply resolve_against; [by apply Forall_app|done].
Qed.

End MakeOptionsFacts.

(** *** Files outside the directory of the configuration file *)

Section OutsideFacts.

Import posix.

Lemma split_concat_no_slash (segs : list string) :
  Forall (fun seg => Forall (fun c => isSlash c = false) (list_ascii_of_string seg)) segs ->
  segs <> [] ->
  split (String.concat "/" segs) = segs.
Proof.
  induction segs as [|x [|y l] IH]; intros Hall Hne; [done| |].
  - simpl. apply split_no_slash. by apply Forall_cons in Hall as [? _].
  - rewrite concat_cons_cons. apply Forall_cons in Hall as [Hx Hall].
    change ("/" +:+ ?t) with (String "/" t).
    rewrite split_app_slash, IH, split_no_slash; done.
Qed.

Lemma normalize_pop (res : list string) (k : nat) :
  Forall (fun seg => plainName seg = true) res ->
  foldl (normalize_visit false) res (repeat ".." k) = drop k res.
Proof.
  revert res. induction k as [|k IH]; intros res Hres; [done|].
  cbn [repeat foldl]. destruct res as [|last res]; cbn [normalize_visit].
  - change (normalize_visit false [] "..") with (@nil string).
    rewrite IH by done. by destruct k.
  - apply Forall_cons in Hres as [Hlast Hres].
    apply plainName_spec in Hlast as (_ & _ & Hne & _).
    apply String.eqb_neq in Hne.
    unfold normalize_visit. cbn [String.eqb Ascii.eqb Bool.eqb orb].
    rewrite Hne. by apply IH.
Qed.

Lemma relative_segments_apart (p d r : list string) (d0 f : string) :
  d0 <> f ->
  relative_segments (p ++ d0 :: d) (p ++ f :: r)
  = repeat ".." (S (List.length d)) ++ f :: r.
Proof.
  intros Hne. induction p as [|x p IH]; cbn [app relative_segments].
  - apply String.eqb_neq in Hne. by rewrite Hne.
  - by rewrite String.eqb_refl.
Qed.

Lemma relative_apart (cwd : string) (p d r : list string) (d0 f : string) :
  Forall (fun seg => plainName seg = true) (p ++ d0 :: d) ->
  Forall (fun seg => plainName seg = true) (p ++ f :: r) ->
  d0 <> f ->
  relative cwd (absolute (p ++ d0 :: d)) (absolute (p ++ f :: r))
  = String.concat "/" (repeat ".." (S (List.length d)) ++ f :: r).
Proof.
  intros Hd Hf Hne. unfold relative. rewrite !resolve_absolute by done.
  destruct (String.eqb_spec (absolute (p ++ d0 :: d)) (absolute (p ++ f :: r)))
    as [Heq|_].
  - apply (f_equal segments) in Heq. rewrite !segments_absolute in Heq by done.
    apply app_inv_head in Heq. congruence.
  - by rewrite !segments_absolute, relative_segments_apart.
Qed.

(** Resolving a path that climbs [k] levels and then descends. *)
Lemma resolve_climbing (cwd : string) (o r : list string) (f : string) (k : nat) :
  Forall (fun seg => plainName seg = true) o ->
  Forall (fun seg => plainName seg = true) (f :: r) ->
  resolve cwd [absolute o; String.concat "/" (repeat ".." (S k) ++ f :: r)]
  = absolute (take (List.length o - S k) o ++ f :: r).
Proof.
  intros Ho Hr. unfold resolve. cbn [rev app].
  set (up := repeat ".." (S k) ++ f :: r).
  assert (Hup : Forall (fun seg => Forall (fun c => isSlash c = false)
                                     (list_ascii_of_string seg)) up).
  { apply Forall_app. split.
    - apply Forall_forall. intros seg Hin.
      apply list_elem_of_In, repeat_spec in Hin. subst seg. by repeat constructor.
    - eapply Forall_impl; [exact Hr|]. intros seg Hseg.
      by apply plainName_spec in Hseg as (_ & _ & _ & Hseg). }
  assert (Hupne : up <> []) by (subst up; by destruct k).
  assert (Hrel : String.eqb (String.concat "/" up) "" = false
                 /\ startsWithSlash (String.concat "/" up) = false).
  { subst up. cbn [repeat app].
    destruct (repeat ".." k ++ f :: r) as [|y l] eqn:Hl; [by destruct k|].
    rewrite concat_cons_cons. by split. }
  destruct Hrel as [Hne Hns].
  rewrite resolve_loop_relative, resolve_loop_absolute by done. cbv iota beta.
  unfold normalizeString. cbn [negb].
  rewrite !split_app_slash, split_concat_no_slash by done.
  rewrite !foldl_app.
  rewrite (normalize_fold false (split (absolute o))) by (by apply tame_absolute).
  fold (segments (absolute o)). rewrite segments_absolute, app_nil_r by done.
  subst up. rewrite foldl_app.
  rewrite normalize_pop by (by apply Forall_rev).
  rewrite (normalize_fold false (f :: r))
    by (eapply Forall_impl; [exact Hr|]; auto).
  assert (Hkeep : filter (fun seg => seg <> "") (f :: r) = f :: r).
  { clear -Hr. induction Hr as [|seg l Hseg Hl IH]; [done|].
    rewrite filter_cons_True, IH; [done|]. by apply plainName_spec in Hseg as [? _]. }
  rewrite Hkeep. cbn [split foldl normalize_visit String.eqb orb].
  rewrite rev_app_distr, rev_involutive, skipn_rev, rev_involutive.
  reflexivity.
Qed.

(** X16: the output path of a file outside the directory of the
    configuration file, their two paths parting after a common start: it is
    the output folder cut by as many trailing segments as the configuration
    directory lies below the common start (the whole folder when it has
    fewer), followed by the rest of the file's path. So, when the output
    folder is the configuration directory itself, the file is mapped to
    itself. *)
Theorem output_path_outside_configuration_directory
    (cwd0 : string) (opt : Options) (p d r o : list string) (d0 f configName : string) :
  forallb plainName (p ++ d0 :: d) = true -> forallb plainName (p ++ f :: r) = true ->
  forallb plainName o = true -> plainName configName = true ->
  d0 <> f ->
  tsconfig opt = absolute ((p ++ d0 :: d) ++ [configName]) ->
  outputFolder opt = absolute o ->
  @getOutputFilePath (node_path cwd0) (absolute (p ++ f :: r)) opt
  = absolute (take (List.length o - S (List.length d)) o ++ f :: r)
  /\ (o = p ++ d0 :: d ->
      @getOutputFilePath (node_path cwd0) (absolute (p ++ f :: r)) opt
      = absolute (p ++ f :: r)).
Proof.
  intros Hd Hf Ho Hc Hne Hts Hout.
  apply forallb_Forall_true in Hd, Hf, Ho.
  assert (Hpath : @getOutputFilePath (node_path cwd0) (absolute (p ++ f :: r)) opt
                  = absolute (take (List.length o - S (List.length d)) o ++ f :: r)).
  { unfold getOutputFilePath, getRelativePath, getDirectory. rewrite Hts, Hout.
    cbn [path.resolve path.relative path.dirname node_path].
    rewrite dirname_absolute, resolve_absolute, relative_apart by done.
    apply resolve_climbing; [done|].
    apply Forall_app in Hf as [_ Hf]. exact Hf. }
  split; [exact Hpath|].
  intros ->. rewrite Hpath. f_equal. f_equal.
  rewrite length_app. cbn [List.length].
  replace (List.length p + S (List.length d) - S (List.length d))%nat
    with (List.length p) by lia.
  apply take_app_length.
Qed.

End OutsideFacts.

(** *** The further properties at work on the sample project *)

Lemma yielded_passed_filters_witness :
  exists file,
    file ∈ Sample.sourceFiles
    /\ SourceFile.fileName file = "/proj/src/a.ts"
    /\ node_modules_test "/proj/src/a.ts" = false
    /\ SourceFile.isDeclarationFile file = false
    /\ (forall subset : gset string, None = Some subset -> "/proj/src/a.ts" ∈ subset)
    /\ exists readFile' first others,
         getCombinedCodeFix Sample.project readFile' "/proj/src/a.ts" = first :: others
         /\ [edit 0 1 "Z"; edit 5 0 "-"] = ts.textChanges first.
Proof.
  apply (yielded_passed_filters (fun _ => None) Sample.project None Sample.sourceFiles
           (fun _ => ret tt) Sample.world0
           (Yield.mk "/proj/src/a.ts" [edit 0 1 "Z"; edit 5 0 "-"])).
  vm_compute. left.
Defined.

Lemma codefixProject_done_witness :
  (@codefixProject (posix.node_path "/proj") Sample.onlyA (fun _ => None)
     (fun _ _ => Normal (Some Sample.project)) Sample.host Sample.opt Sample.world0).1
  = Normal "Done".
Proof.
  apply (@codefixProject_done (posix.node_path "/proj") Sample.onlyA (fun _ => None)
           (fun _ _ => Normal (Some Sample.project)) Sample.host Sample.opt Sample.world0
           ([], []) Sample.project); [reflexivity|reflexivity|].
  intros f Hf.
  repeat (apply elem_of_cons in Hf as [->|Hf]; [by eexists|]).
  by apply elem_of_nil in Hf.
Defined.


Lemma written_files_witness :
  List.filter isWriteFile
    (hostCalls
       (genCodeFixesFromProject (fun _ => None) Sample.project None Sample.sourceFiles
          (@applyFixes (posix.node_path "/proj") Sample.host SampleArgs.writing
             Sample.project) Sample.world0).2)
  = List.filter isWriteFile (hostCalls Sample.world0)
    ++ flat_map (@writeOf (posix.node_path "/proj") SampleArgs.writing Sample.project)
         (yielded (fun _ => None) Sample.project None Sample.sourceFiles
            (@applyFixes (posix.node_path "/proj") Sample.host SampleArgs.writing
               Sample.project) Sample.world0).
Proof.
  apply (@written_files (posix.node_path "/proj") (fun _ => None) Sample.host
           SampleArgs.writing Sample.project None Sample.sourceFiles Sample.world0).
  reflexivity.
Defined.

Lemma dry_run_only_logs_witness :
  exists calls,
    hostCalls
      (@codefixProject (posix.node_path "/proj") Sample.onlyA (fun _ => None)
         (fun _ _ => Normal (Some Sample.project)) Sample.host Sample.opt Sample.world0).2
    = hostCalls Sample.world0 ++ calls
    /\ Forall (fun c => isLog c = true) calls.
Proof.
  apply (@dry_run_only_logs (posix.node_path "/proj") Sample.onlyA (fun _ => None)
           (fun _ _ => Normal (Some Sample.project)) Sample.host Sample.opt Sample.world0).
  reflexivity.
Defined.

Lemma makeOptions_in_place_witness :
  outputFolder (@makeOptions (posix.node_path "/proj") SampleArgs.plain "/proj" []) = "/proj"
  /\ @getOutputFilePath (posix.node_path "/proj") "/proj/src/x.ts"
       (@makeOptions (posix.node_path "/proj") SampleArgs.plain "/proj" [])
     = "/proj/src/x.ts".
Proof.
  apply (makeOptions_in_place SampleArgs.plain "/proj" "/proj" []
           ["proj"] ["src"; "x.ts"] "tsconfig.json");
    [reflexivity|reflexivity|reflexivity|by left|reflexivity].
Defined.

Lemma makeOptions_output_folder_witness :
  outputFolder (@makeOptions (posix.node_path "/proj") SampleArgs.withOutputFolder "/proj" [])
  = "/proj/out"
  /\ @getOutputFilePath (posix.node_path "/proj") "/proj/src/x.ts"
       (@makeOptions (posix.node_path "/proj") SampleArgs.withOutputFolder "/proj" [])
     = "/proj/out/src/x.ts".
Proof.
  apply (makeOptions_output_folder SampleArgs.withOutputFolder "/proj" []
           ["proj"] ["out"] ["proj"] ["src"; "x.ts"] "tsconfig.json");
    [reflexivity|reflexivity|discriminate|reflexivity|reflexivity|reflexivity
    |reflexivity|reflexivity].
Defined.

Lemma output_path_outside_configuration_directory_witness :
  @getOutputFilePath (posix.node_path "/home/u/proj") "/home/u/lib/x.ts"
    (mkOptions "/home/u/proj" "/home/u/proj/tsconfig.json" "/home/u/proj/out" [] true)
  = "/home/u/proj/lib/x.ts"
  /\ @getOutputFilePath (posix.node_path "/home/u/proj") "/home/u/lib/x.ts"
       (mkOptions "/home/u/proj" "/home/u/proj/tsconfig.json" "/home/u/proj" [] true)
     = "/home/u/lib/x.ts".
Proof.
  split.
  - refine (proj1 (output_path_outside_configuration_directory "/home/u/proj"
             (mkOptions "/home/u/proj" "/home/u/proj/tsconfig.json" "/home/u/proj/out" [] true)
             ["home"; "u"] [] ["x.ts"] ["home"; "u"; "proj"; "out"] "proj" "lib"
             "tsconfig.json" _ _ _ _ _ _ _));
      [reflexivity|reflexivity|reflexivity|reflexivity|discriminate|reflexivity|reflexivity].
  - refine (proj2 (output_path_outside_configuration_directory "/home/u/proj"
             (mkOptions "/home/u/proj" "/home/u/proj/tsconfig.json" "/home/u/proj" [] true)
             ["home"; "u"] [] ["x.ts"] ["home"; "u"; "proj"] "proj" "lib"
             "tsconfig.json" _ _ _ _ _ _ _) _);
      [reflexivity|reflexivity|reflexivity|reflexivity|discriminate|reflexivity|reflexivity
      |reflexivity].
Defined.
